(** * crane-control-system: the ESP8266 UART <-> MQTT bridge (src/main.cpp)

    A shallow embedding of the sketch and the proofs of its specified
    properties.

    The sketch is a single-threaded control loop over global variables that
    talks to three collaborators whose code is not part of the repository:
    the serial peripheral (Serial), the network link (WiFi) and the messaging
    client (PubSubClient).  The embedding keeps that shape:

    - [Globals] holds the program's global variables (main.cpp:25-30);
    - [World] holds what the collaborators expose to the program: the
      millisecond clock, the answers the environment will give to status
      queries and connect attempts, the serial receive queue, and the log of
      every call the program issues to a collaborator ([Call]);
    - program functions are computations in the monad [M], which threads
      the machine state and can stop in one of two ways: [Fault], an access
      outside the bounds of [lineBuf] (undefined behaviour in C++), and
      [OutOfFuel], the bound of a [while] loop of the model being used up.

    What is observable of a run is the log of calls: a line counts as
    published when the program calls [mqtt.publish] for it, a byte counts as
    written when the program calls [Serial.write] for it.  What the
    collaborators do with a call afterwards is outside the program. *)

From Stdlib Require Import ZArith Lia Ascii String HexString.
From stdpp Require Import base tactics option list strings.

Local Open Scope Z_scope.
Local Open Scope stdpp_scope.

(** ** Characters and strings *)

(** A C [char] (and an Arduino [byte]) is an [ascii]; an Arduino [String] is
    a [string]; a [char] array or a byte stream is a [list ascii]. *)

Definition NUL : ascii := "000"%char.
Definition LF  : ascii := "010"%char.   (* '\n' *)
Definition CR  : ascii := "013"%char.   (* '\r' *)
Definition DQ  : ascii := "034"%char.   (* the double quote *)

(** The text [s] between double quotes, as it stands inside a C literal
    written with escaped quotes. *)
Definition quoted (s : string) : string :=
  String DQ (s +:+ String DQ EmptyString).

(** The [String] constructor from a C string: the characters of the array
    up to, and without, the first NUL.  Reading past the end of the array
    without meeting a NUL is undefined behaviour: [None]. *)
Fixpoint c_str (mem : list ascii) : option string :=
  match mem with
  | [] => None
  | c :: mem' =>
      if Ascii.eqb c NUL then Some ""
      else match c_str mem' with
           | Some s => Some (String c s)
           | None => None
           end
  end.

(** [String(unsigned, HEX)]: lower-case hexadecimal digits, no prefix, no
    leading zero. *)
Definition String_HEX (n : N) : string :=
  match n with
  | N0 => "0"
  | Npos p => HexString.Raw.of_pos p ""
  end.

(** ** User configuration (main.cpp:5-19) *)

Definition WIFI_SSID : string := "portmodel".
Definition WIFI_PASS : string := "portmodel123".
Definition MQTT_HOST : string := "192.168.1.2".
Definition MQTT_PORT : Z := 1883.
Definition BAUD : Z := 115200.
Definition LINE_BUF : nat := 256.

(** ** Machine state *)

(** The program's global variables (main.cpp:25-30). *)
Record Globals : Type := mkGlobals {
  tCmd    : string;
  tResp   : string;
  tLwt    : string;
  lineBuf : list ascii;     (* char lineBuf[LINE_BUF] *)
  lineLen : nat             (* size_t lineLen *)
}.

(** Calls the program issues to its collaborators, with their arguments. *)
Inductive Call : Type :=
| Serial_begin_call (baud : Z)
| Serial_write_call (b : ascii)
| WiFi_mode_STA_call
| WiFi_begin_call (ssid pass : string)
| delay_call (ms : Z)
| mqtt_setServer_call (host : string) (port : Z)
| mqtt_setCallback_call
| mqtt_connect_call (clientId willTopic : string) (willQos : Z)
                    (willRetain : bool) (willMessage : string)
| mqtt_publish_call (topic payload : string) (retained : bool)
| mqtt_subscribe_call (topic : string) (qos : Z).

(** What the environment decides: the answer to the k-th link status query,
    how long the k-th [delay] overruns the time asked for, whether the broker
    accepts the k-th connect attempt, and the chip identifier. *)
Record Env : Type := mkEnv {
  wifi_connected_at : nat -> bool;
  delay_lag_at      : nat -> Z;
  broker_accepts_at : nat -> bool;
  chip_id           : N
}.

Record World : Type := mkWorld {
  env            : Env;
  clock          : Z;          (* what millis() returns, a uint32 *)
  wifi_queries   : nat;        (* WiFi.status() calls so far *)
  delays         : nat;        (* delay() calls so far *)
  connects       : nat;        (* mqtt.connect() calls so far *)
  mqtt_up        : bool;       (* what mqtt.connected() returns *)
  serial_rx      : list ascii; (* bytes waiting in the UART receive queue *)
  mqtt_inbox     : list (string * list ascii);
                               (* messages the next mqtt.loop() delivers *)
  calls          : list Call   (* calls issued so far, oldest first *)
}.

Record Machine : Type := mkMachine {
  vars  : Globals;
  world : World
}.

Definition with_vars (g : Globals) (m : Machine) : Machine :=
  mkMachine g (world m).
Definition with_world (w : World) (m : Machine) : Machine :=
  mkMachine (vars m) w.

Definition set_lineBuf (b : list ascii) (g : Globals) : Globals :=
  mkGlobals (tCmd g) (tResp g) (tLwt g) b (lineLen g).
Definition set_lineLen (n : nat) (g : Globals) : Globals :=
  mkGlobals (tCmd g) (tResp g) (tLwt g) (lineBuf g) n.
Definition set_topics (c r l : string) (g : Globals) : Globals :=
  mkGlobals c r l (lineBuf g) (lineLen g).

Definition log_call (c : Call) (w : World) : World :=
  mkWorld (env w) (clock w) (wifi_queries w) (delays w) (connects w)
          (mqtt_up w) (serial_rx w) (mqtt_inbox w) (calls w ++ [c]).
Definition set_clock (t : Z) (w : World) : World :=
  mkWorld (env w) t (wifi_queries w) (delays w) (connects w)
          (mqtt_up w) (serial_rx w) (mqtt_inbox w) (calls w).
Definition set_wifi_queries (n : nat) (w : World) : World :=
  mkWorld (env w) (clock w) n (delays w) (connects w)
          (mqtt_up w) (serial_rx w) (mqtt_inbox w) (calls w).
Definition set_delays (n : nat) (w : World) : World :=
  mkWorld (env w) (clock w) (wifi_queries w) n (connects w)
          (mqtt_up w) (serial_rx w) (mqtt_inbox w) (calls w).
Definition set_connects (n : nat) (w : World) : World :=
  mkWorld (env w) (clock w) (wifi_queries w) (delays w) n
          (mqtt_up w) (serial_rx w) (mqtt_inbox w) (calls w).
Definition set_mqtt_up (b : bool) (w : World) : World :=
  mkWorld (env w) (clock w) (wifi_queries w) (delays w) (connects w)
          b (serial_rx w) (mqtt_inbox w) (calls w).
Definition set_serial_rx (q : list ascii) (w : World) : World :=
  mkWorld (env w) (clock w) (wifi_queries w) (delays w) (connects w)
          (mqtt_up w) q (mqtt_inbox w) (calls w).
Definition set_mqtt_inbox (q : list (string * list ascii)) (w : World) : World :=
  mkWorld (env w) (clock w) (wifi_queries w) (delays w) (connects w)
          (mqtt_up w) (serial_rx w) q (calls w).

(** ** The monad of program steps *)

Inductive outcome (A : Type) : Type :=
| Done (a : A) (m : Machine)
| Fault
| OutOfFuel.
Arguments Done {A} a m.
Arguments Fault {A}.
Arguments OutOfFuel {A}.

Definition M (A : Type) : Type := Machine -> outcome A.

Definition ret {A} (a : A) : M A := fun m => Done a m.

Definition bind {A B} (c : M A) (k : A -> M B) : M B :=
  fun m => match c m with
           | Done a m' => k a m'
           | Fault => Fault
           | OutOfFuel => OutOfFuel
           end.

Declare Scope bridge_scope.
Delimit Scope bridge_scope with bridge.
Notation "x <- c ;; k" := (bind c (fun x => k))
  (at level 100, c at next level, right associativity) : bridge_scope.
Notation "c ;;; k" := (bind c (fun _ => k))
  (at level 100, right associativity) : bridge_scope.
Local Open Scope bridge_scope.

Definition read_vars : M Globals := fun m => Done (vars m) m.
Definition write_vars (f : Globals -> Globals) : M unit :=
  fun m => Done tt (with_vars (f (vars m)) m).
Definition read_world : M World := fun m => Done (world m) m.
Definition write_world (f : World -> World) : M unit :=
  fun m => Done tt (with_world (f (world m)) m).
Definition issue (c : Call) : M unit := write_world (log_call c).
Definition fault {A} : M A := fun _ => Fault.
Definition out_of_fuel {A} : M A := fun _ => OutOfFuel.

(** ** The collaborators' primitives *)

Definition uint32 (z : Z) : Z := z mod 2 ^ 32.

(** [WiFi.status() == WL_CONNECTED]: the environment's next answer. *)
Definition WiFi_connected : M bool :=
  w <- read_world ;;
  write_world (set_wifi_queries (S (wifi_queries w))) ;;;
  ret (wifi_connected_at (env w) (wifi_queries w)).

Definition WiFi_mode_STA : M unit := issue WiFi_mode_STA_call.
Definition WiFi_begin (ssid pass : string) : M unit :=
  issue (WiFi_begin_call ssid pass).

Definition millis : M Z := w <- read_world ;; ret (clock w).

(** [delay(ms)]: time passes only here; the clock advances by [ms] plus the
    overrun the environment chose for this call, and wraps at 2^32. *)
Definition delay (ms : Z) : M unit :=
  w <- read_world ;;
  issue (delay_call ms) ;;;
  write_world (set_delays (S (delays w))) ;;;
  write_world (set_clock (uint32 (clock w + ms + delay_lag_at (env w) (delays w)))).

Definition Serial_begin (baud : Z) : M unit := issue (Serial_begin_call baud).
Definition Serial_write (b : ascii) : M unit := issue (Serial_write_call b).
Definition Serial_available : M bool :=
  w <- read_world ;;
  ret (match serial_rx w with [] => false | _ :: _ => true end).
(** [(char)Serial.read()]: the oldest waiting byte; with nothing waiting
    [read] returns -1, which the cast turns into the byte 255. *)
Definition Serial_read : M ascii :=
  w <- read_world ;;
  match serial_rx w with
  | [] => ret "255"%char
  | c :: q => write_world (set_serial_rx q) ;;; ret c
  end.

Definition ESP_getChipId : M N := w <- read_world ;; ret (chip_id (env w)).

Definition mqtt_connected : M bool := w <- read_world ;; ret (mqtt_up w).
Definition mqtt_setServer (host : string) (port : Z) : M unit :=
  issue (mqtt_setServer_call host port).
Definition mqtt_setCallback : M unit := issue mqtt_setCallback_call.
Definition mqtt_connect (clientId willTopic : string) (willQos : Z)
    (willRetain : bool) (willMessage : string) : M bool :=
  w <- read_world ;;
  issue (mqtt_connect_call clientId willTopic willQos willRetain willMessage) ;;;
  write_world (set_connects (S (connects w))) ;;;
  let ok := broker_accepts_at (env w) (connects w) in
  write_world (set_mqtt_up ok) ;;;
  ret ok.
Definition mqtt_publish (topic payload : string) (retained : bool) : M unit :=
  issue (mqtt_publish_call topic payload retained).
Definition mqtt_subscribe (topic : string) (qos : Z) : M unit :=
  issue (mqtt_subscribe_call topic qos).

(** ** The sketch (main.cpp:39-168) *)

Section Sketch.

(** The logical crane identity (main.cpp:15).  The source configures
    ["crane-1"]; the development holds for every identity. *)
Variable CRANE_ID : string.

(** main.cpp:39-41.  The fourth parameter is unnamed in the source. *)
Definition publish (topic payload : string) (retain : bool) (_qos : Z) : M unit :=
  mqtt_publish topic payload retain.

(** main.cpp:56-59, the polling loop of [ensureWifi]; [start] is the local
    constant of main.cpp:55, and the subtraction is on [uint32_t]. *)
Fixpoint ensureWifi_wait (fuel : nat) (start : Z) : M unit :=
  match fuel with
  | O => out_of_fuel
  | S fuel' =>
      up <- WiFi_connected ;;
      if up then ret tt
      else
        delay 300 ;;;
        now <- millis ;;
        if 20000 <? uint32 (now - start) then ret tt
        else ensureWifi_wait fuel' start
  end.

(** main.cpp:48-60. *)
Definition ensureWifi (fuel : nat) : M unit :=
  up <- WiFi_connected ;;
  if up then ret tt
  else
    WiFi_mode_STA ;;;
    WiFi_begin WIFI_SSID WIFI_PASS ;;;
    start <- millis ;;
    ensureWifi_wait fuel start.

(** main.cpp:73-75: the bytes of the payload, by increasing index. *)
Fixpoint Serial_write_each (payload : list ascii) : M unit :=
  match payload with
  | [] => ret tt
  | b :: rest => Serial_write b ;;; Serial_write_each rest
  end.

(** main.cpp:68-81.  [topic] stands for the C string the pointer designates,
    [payload] for the pointer and the length. *)
Definition onMqtt (topic : string) (payload : list ascii) : M unit :=
  g <- read_vars ;;
  let t := topic in
  if negb (String.eqb t (tCmd g)) then ret tt
  else
    Serial_write_each payload ;;;
    if (length payload =? 0)%nat
       || negb (bool_decide (payload !! (length payload - 1)%nat = Some LF))
    then Serial_write LF
    else ret tt.

(** The two C literals around the identity in the presence messages
    (main.cpp:100 and main.cpp:108), and the literal that closes them. *)
Definition lit_offline_head : string :=
  "{" +:+ quoted "online" +:+ ":false," +:+ quoted "id" +:+ ":" +:+ String DQ EmptyString.
Definition lit_online_head : string :=
  "{" +:+ quoted "online" +:+ ":true," +:+ quoted "id" +:+ ":" +:+ String DQ EmptyString.
Definition lit_tail : string := String DQ "}".

(** main.cpp:89-111. *)
Definition ensureMqtt : M unit :=
  up <- mqtt_connected ;;
  if up then ret tt
  else
    mqtt_setServer MQTT_HOST MQTT_PORT ;;;
    mqtt_setCallback ;;;
    chip <- ESP_getChipId ;;
    let clientId := (CRANE_ID +:+ "-") +:+ String_HEX chip in
    let lwtMsg := (lit_offline_head +:+ CRANE_ID) +:+ lit_tail in
    g <- read_vars ;;
    ok <- mqtt_connect clientId (tLwt g) 1 true lwtMsg ;;
    if ok then
      publish (tLwt g) ((lit_online_head +:+ CRANE_ID) +:+ lit_tail) true 1 ;;;
      mqtt_subscribe (tCmd g) 1
    else ret tt.

(** main.cpp:120-125. *)
Definition setupTopics : M unit :=
  let base := "crane/" +:+ CRANE_ID in
  write_vars (set_topics (base +:+ "/cmd") (base +:+ "/resp") (base +:+ "/lwt")).

(** [mqtt.loop()]: while the session is up, the messages that arrived are
    handed to the registered callback, in order of arrival. *)
Fixpoint deliver (msgs : list (string * list ascii)) : M unit :=
  match msgs with
  | [] => ret tt
  | (topic, payload) :: rest => onMqtt topic payload ;;; deliver rest
  end.
Definition mqtt_loop : M unit :=
  w <- read_world ;;
  if mqtt_up w then
    write_world (set_mqtt_inbox []) ;;;
    deliver (mqtt_inbox w)
  else ret tt.

(** [lineBuf[i] = c]: a store outside the array is undefined behaviour. *)
Definition lineBuf_store (i : nat) (c : ascii) : M unit :=
  g <- read_vars ;;
  if decide (i < length (lineBuf g))%nat
  then write_vars (set_lineBuf (<[i := c]> (lineBuf g)))
  else fault.

(** [String(lineBuf)]: reads the array as a C string. *)
Definition String_lineBuf : M string :=
  g <- read_vars ;;
  match c_str (lineBuf g) with
  | Some s => ret s
  | None => fault
  end.

(** main.cpp:150-166, the body of the drain loop for the byte [c] just read.
    The [continue] of main.cpp:152 is the first branch. *)
Definition on_serial_byte (c : ascii) : M unit :=
  if Ascii.eqb c CR then ret tt
  else if Ascii.eqb c LF then
    g <- read_vars ;;
    if (0 <? lineLen g)%nat then
      lineBuf_store (lineLen g) NUL ;;;
      line <- String_lineBuf ;;
      g' <- read_vars ;;
      publish (tResp g') line false 1 ;;;
      write_vars (set_lineLen 0)
    else ret tt
  else
    g <- read_vars ;;
    if (lineLen g <? LINE_BUF - 1)%nat then
      lineBuf_store (lineLen g) c ;;;
      write_vars (set_lineLen (S (lineLen g)))
    else ret tt.

(** main.cpp:149-167: [while (Serial.available()) { ... }]. *)
Fixpoint drain_serial (fuel : nat) : M unit :=
  match fuel with
  | O => out_of_fuel
  | S fuel' =>
      more <- Serial_available ;;
      if more then
        c <- Serial_read ;;
        on_serial_byte c ;;;
        drain_serial fuel'
      else ret tt
  end.

(** main.cpp:127-138. *)
Definition setup (fuel : nat) : M unit :=
  Serial_begin BAUD ;;;
  delay 100 ;;;
  setupTopics ;;;
  ensureWifi fuel ;;;
  ensureMqtt.

(** main.cpp:140-168, one scheduling cycle. *)
Definition loop (fuel : nat) : M unit :=
  ensureWifi fuel ;;;
  ensureMqtt ;;;
  mqtt_loop ;;;
  drain_serial fuel.

End Sketch.

(** ** Vocabulary of the specification *)

(** The machine after the program has issued the calls [cs], nothing else
    having changed. *)
Definition add_calls (cs : list Call) (w : World) : World :=
  mkWorld (env w) (clock w) (wifi_queries w) (delays w) (connects w)
          (mqtt_up w) (serial_rx w) (mqtt_inbox w) (calls w ++ cs).
Definition emit (cs : list Call) (m : Machine) : Machine :=
  with_world (add_calls cs (world m)) m.

(** The response lines a log holds: the payloads of the publish calls on
    [topic], oldest first. *)
Fixpoint published_on (topic : string) (cs : list Call) : list string :=
  match cs with
  | [] => []
  | mqtt_publish_call t payload _ :: cs' =>
      if String.eqb t topic then payload :: published_on topic cs'
      else published_on topic cs'
  | _ :: cs' => published_on topic cs'
  end.

(** The delivery-assurance level a call asks the messaging client for, if
    the call has an argument for it. *)
Definition requested_qos (c : Call) : option Z :=
  match c with
  | mqtt_connect_call _ _ willQos _ _ => Some willQos
  | mqtt_subscribe_call _ qos => Some qos
  | _ => None
  end.

(** The bytes a log writes to the serial peripheral, oldest first. *)
Fixpoint serial_written (cs : list Call) : list ascii :=
  match cs with
  | [] => []
  | Serial_write_call b :: cs' => b :: serial_written cs'
  | _ :: cs' => serial_written cs'
  end.

(** The line buffer is well formed: the array has its declared size and the
    fill length leaves room for the terminator. *)
Definition buffer_ok (g : Globals) : Prop :=
  length (lineBuf g) = LINE_BUF /\ (lineLen g <= LINE_BUF - 1)%nat.

(** The bytes accumulated in the line buffer. *)
Definition accumulated (g : Globals) : list ascii :=
  take (lineLen g) (lineBuf g).

(** The global variables as the C++ runtime initialises them. *)
Definition power_on_vars : Globals :=
  mkGlobals EmptyString EmptyString EmptyString (replicate LINE_BUF NUL) 0.

(** The segments of [bs] between occurrences of the delimiter [d]: one more
    than there are delimiters. *)
Fixpoint split_on (d : ascii) (bs : list ascii) : list (list ascii) :=
  match bs with
  | [] => [[]]
  | c :: bs' =>
      if Ascii.eqb c d then [] :: split_on d bs'
      else match split_on d bs' with
           | seg :: segs => (c :: seg) :: segs
           | [] => [[c]]
           end
  end.

(** The newline-delimited segments of the input, and those of them that a
    newline ends (all but the last one). *)
Definition newline_segments (bs : list ascii) : list (list ascii) :=
  split_on LF bs.
Definition terminated_segments (bs : list ascii) : list (list ascii) :=
  removelast (split_on LF bs).
Definition unterminated_tail (bs : list ascii) : list ascii :=
  List.last (split_on LF bs) [].

Definition strip_cr (seg : list ascii) : list ascii :=
  filter (fun c => c <> CR) seg.

(** The characters before the first NUL. *)
Fixpoint before_nul (l : list ascii) : list ascii :=
  match l with
  | [] => []
  | c :: l' => if Ascii.eqb c NUL then [] else c :: before_nul l'
  end.

(** What the framer keeps of a segment: no carriage return, at most
    [LINE_BUF - 1] characters. *)
Definition kept (seg : list ascii) : list ascii :=
  take (LINE_BUF - 1) (strip_cr seg).

(** The lines of the framing property as the specification words it:
    carriage returns removed, empty segments dropped, each segment cut to
    [LINE_BUF - 1] characters. *)
Definition framed_lines (segs : list (list ascii)) : list string :=
  map (fun seg => string_of_list_ascii (take (LINE_BUF - 1) seg))
      (filter (fun seg => seg <> []) (map strip_cr segs)).

(** The lines the sketch publishes: as above, and each line ends before its
    first NUL. *)
Definition c_string_lines (segs : list (list ascii)) : list string :=
  map (fun seg => string_of_list_ascii (before_nul (take (LINE_BUF - 1) seg)))
      (filter (fun seg => seg <> []) (map strip_cr segs)).

(** The framer seen on the accumulated bytes alone: the accumulator after
    the byte [c], and the line completed by it, if any. *)
Definition feed (acc : list ascii) (c : ascii) : list ascii * option string :=
  if Ascii.eqb c CR then (acc, None)
  else if Ascii.eqb c LF then
    match acc with
    | [] => ([], None)
    | _ :: _ => ([], Some (string_of_list_ascii (before_nul acc)))
    end
  else if (length acc <? LINE_BUF - 1)%nat then (acc ++ [c], None)
  else (acc, None).

Fixpoint feed_all (acc : list ascii) (bs : list ascii) : list ascii * list string :=
  match bs with
  | [] => (acc, [])
  | c :: bs' =>
      let '(acc', line) := feed acc c in
      let '(final, lines) := feed_all acc' bs' in
      (final, match line with Some l => l :: lines | None => lines end)
  end.

(** The bytes the command path owes the serial peripheral for a payload. *)
Definition ends_with_newline (P : list ascii) : bool :=
  match last P with
  | Some c => Ascii.eqb c LF
  | None => false
  end.
Definition newline_terminated (P : list ascii) : list ascii :=
  if ends_with_newline P then P else P ++ [LF].

(** The presence record as the wire contract spells it. *)
Definition presence_text (online : bool) (ID : string) : string :=
  "{" +:+ quoted "online" +:+ ":" +:+ (if online then "true" else "false")
      +:+ "," +:+ quoted "id" +:+ ":" +:+ quoted ID +:+ "}".

(** The time the polling loop has waited after [n] delays, the first of
    which is the [d]-th delay of the run. *)
Fixpoint waited (e : Env) (d : nat) (n : nat) : Z :=
  match n with
  | O => 0
  | S n' => 300 + delay_lag_at e d + waited e (S d) n'
  end.

(** The channel names of the wire contract hold in the global variables. *)
Definition derived_channels (ID : string) (g : Globals) : Prop :=
  tCmd g = "crane/" +:+ ID +:+ "/cmd" /\
  tResp g = "crane/" +:+ ID +:+ "/resp" /\
  tLwt g = "crane/" +:+ ID +:+ "/lwt".

(** ** Concrete machines for the examples *)

(** The identity the source configures (main.cpp:15). *)
Definition crane_1 : string := "crane-1".

(** An environment in which the link never comes up, delays are exact and
    the broker accepts. *)
Definition link_down : Env :=
  mkEnv (fun _ => false) (fun _ => 0) (fun _ => true) 11259375%N.

(** An environment in which the link is up from the start. *)
Definition link_up : Env :=
  mkEnv (fun _ => true) (fun _ => 0) (fun _ => true) 11259375%N.

(** The machine right after [setupTopics] ran on the power-on state, with
    [rx] waiting in the receive queue. *)
Definition bench (e : Env) (rx : list ascii) : Machine :=
  mkMachine (set_topics "crane/crane-1/cmd" "crane/crane-1/resp"
                        "crane/crane-1/lwt" power_on_vars)
            (mkWorld e 0 0 0 0 false rx [] []).

(** ** Vocabulary of the further properties *)

(** A payload that fits a line of text: at most [LINE_BUF - 1] characters,
    none of them a carriage return, a newline or a NUL. *)
Definition clean_line (s : string) : Prop :=
  (length (list_ascii_of_string s) <= LINE_BUF - 1)%nat /\
  Forall (fun c => c <> CR /\ c <> LF /\ c <> NUL) (list_ascii_of_string s).

(** The bytes owed to the serial peripheral for a sequence of inbound
    messages, [cmd] being the command channel. *)
Fixpoint forwarded (cmd : string) (msgs : list (string * list ascii)) : list ascii :=
  match msgs with
  | [] => []
  | (topic, P) :: rest =>
      (if String.eqb topic cmd then newline_terminated P else [])
      ++ forwarded cmd rest
  end.

(** The calls of one connect attempt of [ensureMqtt], and those that follow
    when the broker accepts. *)
Definition connect_request (ID : string) (g : Globals) (e : Env) : list Call :=
  [mqtt_setServer_call MQTT_HOST MQTT_PORT; mqtt_setCallback_call;
   mqtt_connect_call (ID +:+ "-" +:+ String_HEX (chip_id e)) (tLwt g) 1 true
                     (presence_text false ID)].
Definition connect_announce (ID : string) (g : Globals) : list Call :=
  [mqtt_publish_call (tLwt g) (presence_text true ID) true;
   mqtt_subscribe_call (tCmd g) 1].

(** The calls of [ensureWifi] when it waits through [n] delays. *)
Definition association_calls (n : nat) : list Call :=
  [WiFi_mode_STA_call; WiFi_begin_call WIFI_SSID WIFI_PASS]
  ++ replicate n (delay_call 300).

(** The machine at power-on, before [setup], with [rx] waiting in the
    receive queue. *)
Definition power_on (e : Env) (rx : list ascii) : Machine :=
  mkMachine power_on_vars (mkWorld e 0 0 0 0 false rx [] []).

(** The bench with the link and the session up, the messages [ib] arrived
    and [rx] waiting in the receive queue. *)
Definition bench_online (ib : list (string * list ascii)) (rx : list ascii) : Machine :=
  mkMachine (vars (bench link_up rx)) (mkWorld link_up 0 0 0 1 true rx ib []).

(** ** Proof automation *)

(** Runs the straight-line part of a program on an explicit machine. *)
Ltac run_machine :=
  cbv beta iota zeta delta
    [bind ret read_vars write_vars read_world write_world issue fault
     out_of_fuel with_vars with_world set_lineBuf set_lineLen set_topics
     log_call set_clock set_wifi_queries set_delays set_connects set_mqtt_up
     set_serial_rx set_mqtt_inbox add_calls emit
     WiFi_connected WiFi_mode_STA WiFi_begin millis delay Serial_begin
     Serial_write Serial_available Serial_read ESP_getChipId mqtt_connected
     mqtt_setServer mqtt_setCallback mqtt_connect mqtt_publish mqtt_subscribe
     publish];
  cbn [vars world env clock wifi_queries delays connects mqtt_up serial_rx
       mqtt_inbox calls tCmd tResp tLwt lineBuf lineLen].

(** Proves that a byte does not occur in an explicit list of bytes. *)
Ltac absent_byte :=
  let Hin := fresh "Hin" in
  intros Hin;
  repeat (apply elem_of_cons in Hin as [Hin|Hin]; [discriminate Hin|]);
  inversion Hin.

(** * Proofs *)

(** ** Calls and logs *)

Lemma emit_nil (m : Machine) : emit [] m = m.
Proof.
  destruct m as [g [e t q d c u rx ib cs]].
  unfold emit, with_world, add_calls; simpl. by rewrite app_nil_r.
Qed.

Lemma emit_emit (a b : list Call) (m : Machine) :
  emit b (emit a m) = emit (a ++ b) m.
Proof.
  unfold emit, with_world, add_calls; simpl. by rewrite app_assoc.
Qed.

Lemma issue_emit (c : Call) (m : Machine) : issue c m = Done tt (emit [c] m).
Proof. reflexivity. Qed.

Lemma calls_emit (cs : list Call) (m : Machine) :
  calls (world (emit cs m)) = calls (world m) ++ cs.
Proof. reflexivity. Qed.

Lemma serial_written_app (a b : list Call) :
  serial_written (a ++ b) = serial_written a ++ serial_written b.
Proof.
  induction a as [|c a IH]; [done|]. destruct c; simpl; by rewrite ?IH.
Qed.

Lemma serial_written_writes (bs : list ascii) :
  serial_written (map Serial_write_call bs) = bs.
Proof. induction bs as [|b bs IH]; simpl; by rewrite ?IH. Qed.

Lemma published_on_app (topic : string) (a b : list Call) :
  published_on topic (a ++ b) = published_on topic a ++ published_on topic b.
Proof.
  induction a as [|c a IH]; [done|].
  destruct c; simpl; rewrite ?IH; try done. by destruct (String.eqb _ _).
Qed.

Lemma published_on_publishes (topic : string) (r : bool) (lines : list string) :
  published_on topic (map (fun l => mqtt_publish_call topic l r) lines) = lines.
Proof.
  induction lines as [|l lines IH]; simpl; [done|].
  by rewrite String.eqb_refl, IH.
Qed.

(** ** The command path: [onMqtt] *)

Lemma Serial_write_each_emit (P : list ascii) (m : Machine) :
  Serial_write_each P m = Done tt (emit (map Serial_write_call P) m).
Proof.
  revert m. induction P as [|b P IH]; intros m; simpl.
  - by rewrite emit_nil.
  - unfold bind, Serial_write. rewrite issue_emit, IH, emit_emit. reflexivity.
Qed.

Lemma last_lookup_pred {A} (l : list A) : l !! (length l - 1)%nat = last l.
Proof.
  rewrite last_lookup. f_equal. lia.
Qed.

Lemma newline_terminated_cases (P : list ascii) :
  ((length P =? 0)%nat
   || negb (bool_decide (P !! (length P - 1)%nat = Some LF))) 
  = negb (ends_with_newline P).
Proof.
  rewrite last_lookup_pred. unfold ends_with_newline.
  destruct P as [|x P]; [done|].
  destruct (last (x :: P)) as [c|] eqn:E.
  - simpl. f_equal. destruct (Ascii.eqb_spec c LF) as [->|Hne].
    + by apply bool_decide_eq_true.
    + apply bool_decide_eq_false. congruence.
  - by apply last_None in E.
Qed.

Lemma onMqtt_command (P : list ascii) (m : Machine) :
  onMqtt (tCmd (vars m)) P m
  = Done tt (emit (map Serial_write_call (newline_terminated P)) m).
Proof.
  unfold onMqtt, bind, read_vars. rewrite String.eqb_refl. simpl.
  rewrite Serial_write_each_emit, newline_terminated_cases.
  unfold newline_terminated. destruct (ends_with_newline P); simpl.
  - done.
  - unfold Serial_write. rewrite issue_emit, emit_emit, map_app. done.
Qed.

Lemma onMqtt_other (topic : string) (P : list ascii) (m : Machine) :
  topic <> tCmd (vars m) -> onMqtt topic P m = Done tt m.
Proof.
  intros Hne. unfold onMqtt, bind, read_vars.
  apply String.eqb_neq in Hne. by rewrite Hne.
Qed.

(** ** The network link: [ensureWifi] *)

Lemma uint32_small (z : Z) : 0 <= z < 2 ^ 32 -> uint32 z = z.
Proof. intros H. unfold uint32. by apply Z.mod_small. Qed.

Lemma uint32_add_l (x y : Z) : uint32 (uint32 x + y) = uint32 (x + y).
Proof. unfold uint32. by rewrite Zplus_mod_idemp_l. Qed.

Lemma uint32_since (start a : Z) : uint32 (uint32 (start + a) - start) = uint32 a.
Proof.
  unfold uint32. rewrite Zminus_mod_idemp_l. f_equal. lia.
Qed.

Lemma ensureWifi_wait_spec (L : Z) (fuel : nat) :
  forall (g : Globals) (e : Env) (t : Z) (q d c : nat) (u : bool)
         (rx : list ascii) (ib : list (string * list ascii)) (cs : list Call)
         (start a : Z),
    (forall k, 0 <= delay_lag_at e k <= L) ->
    20300 + L < 2 ^ 32 ->
    t = uint32 (start + a) ->
    0 <= a <= 20000 ->
    20000 < a + 300 * Z.of_nat fuel ->
    exists (n q' : nat),
      a + 300 * Z.of_nat n <= 20300 /\
      ensureWifi_wait fuel start (mkMachine g (mkWorld e t q d c u rx ib cs))
      = Done tt (mkMachine g
                  (mkWorld e (uint32 (start + a + waited e d n)) q' (d + n) c u rx ib
                           (cs ++ replicate n (delay_call 300)))) /\
      (forall k, (k < n)%nat -> wifi_connected_at e (q + k) = false) /\
      ((wifi_connected_at e (q + n) = true /\ a + waited e d n <= 20000
        /\ q' = S (q + n))
       \/ ((0 < n)%nat /\ 20000 < a + waited e d n <= 20300 + L
           /\ q' = (q + n)%nat)).
Proof.
  induction fuel as [|fuel IH]; intros g e t q d c u rx ib cs start a Hlag HL Ht Ha Hfuel.
  - simpl in Hfuel. lia.
  - destruct (wifi_connected_at e q) eqn:Hq.
    + exists 0%nat, (S q). split; [simpl; lia|]. split.
      * cbn [ensureWifi_wait]. run_machine. rewrite Hq. run_machine.
        cbn [waited replicate]. rewrite Z.add_0_r, app_nil_r, Nat.add_0_r. by subst t.
      * split; [intros k Hk; lia|]. left. rewrite Nat.add_0_r. simpl.
        split; [done|]. split; [lia|done].
    + pose proof (Hlag d) as Hd.
      set (a' := a + 300 + delay_lag_at e d).
      assert (Hstep : uint32 (t + 300 + delay_lag_at e d) = uint32 (start + a')).
      { subst t a'. rewrite <- Z.add_assoc, uint32_add_l. f_equal. lia. }
      assert (Hsince : uint32 (uint32 (start + a') - start) = a').
      { rewrite uint32_since. apply uint32_small. subst a'. lia. }
      destruct (Z.ltb_spec 20000 a') as [Hout|Hin].
      * exists 1%nat, (S q). split; [simpl; lia|]. split.
        { cbn [ensureWifi_wait]. run_machine. rewrite Hq. run_machine.
          rewrite Hstep, Hsince.
          destruct (Z.ltb_spec 20000 a'); [|lia]. run_machine.
          cbn [waited replicate]. rewrite Z.add_0_r, Nat.add_1_r.
          subst a'. by rewrite !Z.add_assoc. }
        split.
        { intros k Hk. assert (k = 0%nat) as -> by lia. by rewrite Nat.add_0_r. }
        right. simpl. split; [lia|]. subst a'. split; [lia|]. lia.
      * destruct (IH g e (uint32 (start + a')) (S q) (S d) c u rx ib
                    (cs ++ [delay_call 300]) start a' Hlag HL eq_refl)
          as (n & q' & Hn & Hrun & Hfalse & Hend).
        { subst a'. lia. }
        { subst a'. lia. }
        exists (S n), q'. split; [subst a'; lia|]. split.
        { cbn [ensureWifi_wait]. run_machine. rewrite Hq. run_machine.
          rewrite Hstep, Hsince.
          destruct (Z.ltb_spec 20000 a'); [lia|]. run_machine.
          rewrite Hrun. cbn [waited replicate].
          rewrite <- app_assoc, Nat.add_succ_r. subst a'.
          by rewrite !Z.add_assoc. }
        split.
        { intros k Hk. destruct k as [|k]; [by rewrite Nat.add_0_r|].
          replace (q + S k)%nat with (S q + k)%nat by lia. apply Hfalse. lia. }
        replace (q + S n)%nat with (S q + n)%nat by lia.
        change (waited e d (S n)) with (300 + delay_lag_at e d + waited e (S d) n).
        subst a'. destruct Hend as [(H1 & H2 & H3)|(H1 & H2 & H3)]; [left|right].
        -- split; [done|]. split; [lia|done].
        -- split; [lia|]. split; [lia|done].
Qed.

Lemma ensureWifi_connected (fuel : nat) (m : Machine) :
  wifi_connected_at (env (world m)) (wifi_queries (world m)) = true ->
  ensureWifi fuel m
  = Done tt (with_world (set_wifi_queries (S (wifi_queries (world m))) (world m)) m).
Proof.
  destruct m as [g [e t q d c u rx ib cs]]; cbn [world env wifi_queries].
  intros Hup. unfold ensureWifi. run_machine. rewrite Hup. by run_machine.
Qed.

(** ** Strings *)

Lemma string_app_assoc (a b c : string) : (a +:+ b) +:+ c = a +:+ (b +:+ c).
Proof.
  induction a as [|x a IH]; [done|].
  change (String x ((a +:+ b) +:+ c) = String x (a +:+ (b +:+ c))).
  by rewrite IH.
Qed.

Lemma string_prefix_app (a b : string) : String.prefix a (a +:+ b) = true.
Proof.
  induction a as [|x a IH]; [by destruct b|].
  change (String.prefix (String x a) (String x (a +:+ b)) = true).
  simpl. by destruct (ascii_dec x x).
Qed.

Lemma quoted_then_brace (ID : string) : quoted ID +:+ "}" = String DQ (ID +:+ lit_tail).
Proof.
  unfold quoted, lit_tail.
  change (String DQ ((ID +:+ String DQ EmptyString) +:+ "}")
          = String DQ (ID +:+ String DQ "}")).
  by rewrite string_app_assoc.
Qed.

Lemma offline_text (ID : string) :
  (lit_offline_head +:+ ID) +:+ lit_tail = presence_text false ID.
Proof.
  unfold presence_text. rewrite quoted_then_brace, string_app_assoc. reflexivity.
Qed.

Lemma online_text (ID : string) :
  (lit_online_head +:+ ID) +:+ lit_tail = presence_text true ID.
Proof.
  unfold presence_text. rewrite quoted_then_brace, string_app_assoc. reflexivity.
Qed.

(** ** Channel names: [setupTopics] *)

Lemma setupTopics_run (ID : string) (m : Machine) :
  setupTopics ID m
  = Done tt (with_vars (set_topics ("crane/" +:+ ID +:+ "/cmd")
                                   ("crane/" +:+ ID +:+ "/resp")
                                   ("crane/" +:+ ID +:+ "/lwt") (vars m)) m).
Proof. unfold setupTopics, write_vars. by rewrite !string_app_assoc. Qed.

Lemma channel_names_distinct (ID : string) :
  "crane/" +:+ ID +:+ "/cmd" <> "crane/" +:+ ID +:+ "/resp" /\
  "crane/" +:+ ID +:+ "/cmd" <> "crane/" +:+ ID +:+ "/lwt" /\
  "crane/" +:+ ID +:+ "/resp" <> "crane/" +:+ ID +:+ "/lwt".
Proof.
  repeat split; intros H; do 2 apply String.app_inj in H; discriminate H.
Qed.

(** ** The messaging link: [ensureMqtt] *)

Lemma ensureMqtt_connected (ID : string) (m : Machine) :
  mqtt_up (world m) = true -> ensureMqtt ID m = Done tt m.
Proof.
  destruct m as [g [e t q d c u rx ib cs]]; cbn [world mqtt_up].
  intros ->. reflexivity.
Qed.

Lemma ensureMqtt_attempt (ID : string) (m : Machine) :
  mqtt_up (world m) = false ->
  let w := world m in
  let ok := broker_accepts_at (env w) (connects w) in
  let request :=
    [mqtt_setServer_call MQTT_HOST MQTT_PORT; mqtt_setCallback_call;
     mqtt_connect_call (ID +:+ "-" +:+ String_HEX (chip_id (env w)))
                       (tLwt (vars m)) 1 true (presence_text false ID)] in
  let announce :=
    [mqtt_publish_call (tLwt (vars m)) (presence_text true ID) true;
     mqtt_subscribe_call (tCmd (vars m)) 1] in
  ensureMqtt ID m
  = Done tt (mkMachine (vars m)
               (mkWorld (env w) (clock w) (wifi_queries w) (delays w)
                        (S (connects w)) ok (serial_rx w) (mqtt_inbox w)
                        (calls w ++ request ++ (if ok then announce else [])))).
Proof.
  destruct m as [g [e t q d c u rx ib cs]];
    cbn [world vars env clock wifi_queries delays connects mqtt_up serial_rx mqtt_inbox calls].
  intros ->. cbv zeta. unfold ensureMqtt. run_machine.
  rewrite offline_text, online_text, string_app_assoc.
  destruct (broker_accepts_at e c); run_machine; rewrite <- !app_assoc; reflexivity.
Qed.
(** ** The line framer *)

Lemma add_calls_nil (w : World) : add_calls [] w = w.
Proof. destruct w. unfold add_calls; simpl. by rewrite app_nil_r. Qed.

Lemma c_str_terminated (acc rest : list ascii) :
  c_str (acc ++ NUL :: rest) = Some (string_of_list_ascii (before_nul acc)).
Proof.
  induction acc as [|c acc IH]; [done|].
  simpl. destruct (Ascii.eqb c NUL); [done|]. by rewrite IH.
Qed.

Lemma before_nul_free (l : list ascii) : NUL ∉ l -> before_nul l = l.
Proof.
  induction l as [|c l IH]; [done|]. intros Hnot. simpl.
  apply not_elem_of_cons in Hnot as [Hc Hl].
  destruct (Ascii.eqb_spec c NUL); [congruence|]. by rewrite IH.
Qed.

Lemma before_nul_split (pre post : list ascii) :
  NUL ∉ pre -> before_nul (pre ++ NUL :: post) = pre.
Proof.
  induction pre as [|c pre IH]; [done|]. intros Hnot. simpl.
  apply not_elem_of_cons in Hnot as [Hc Hl].
  destruct (Ascii.eqb_spec c NUL); [congruence|]. by rewrite IH.
Qed.

Lemma accumulated_length (g : Globals) :
  buffer_ok g -> length (accumulated g) = lineLen g.
Proof.
  intros [Hsize Hlen]. unfold accumulated. rewrite length_take.
  unfold LINE_BUF in *. lia.
Qed.

(** One byte through the framer: the program step acts on the machine as
    [feed] acts on the accumulated bytes. *)
Lemma on_serial_byte_feed (c : ascii) (g : Globals) (w : World) :
  buffer_ok g ->
  exists g' : Globals,
    on_serial_byte c (mkMachine g w)
    = Done tt (mkMachine g'
                 (add_calls (match snd (feed (accumulated g) c) with
                             | Some l => [mqtt_publish_call (tResp g) l false]
                             | None => []
                             end) w)) /\
    buffer_ok g' /\
    accumulated g' = fst (feed (accumulated g) c) /\
    tCmd g' = tCmd g /\ tResp g' = tResp g /\ tLwt g' = tLwt g.
Proof.
  intros Hok. pose proof (accumulated_length g Hok) as Hacc.
  destruct Hok as [Hsize Hlen].
  destruct g as [tc tr tl buf len]. unfold accumulated in *.
  cbn [lineBuf lineLen tCmd tResp tLwt] in *.
  unfold on_serial_byte, feed, lineBuf_store, String_lineBuf.
  destruct (Ascii.eqb c CR).
  { exists (mkGlobals tc tr tl buf len). cbn [fst snd].
    rewrite add_calls_nil. by repeat split. }
  destruct (Ascii.eqb c LF).
  - destruct len as [|len].
    + exists (mkGlobals tc tr tl buf 0). rewrite take_0. cbn [fst snd].
      rewrite add_calls_nil. by repeat split.
    + exists (mkGlobals tc tr tl (<[S len := NUL]> buf) 0).
      destruct (take (S len) buf) as [|a acc] eqn:Etake; [done|].
      rewrite <- Etake. cbn [fst snd].
      run_machine. change (0 <? S len)%nat with true. run_machine.
      case_decide as Hin; [|unfold LINE_BUF in *; lia].
      apply lookup_lt_is_Some_2 in Hin as Hsome. destruct Hsome as [old Hold].
      run_machine.
      rewrite (insert_take_drop buf (S len) NUL) by done.
      rewrite c_str_terminated.
      split; [reflexivity|]. split.
      * split; cbn [lineBuf lineLen]; [|lia].
        rewrite <- (insert_take_drop buf (S len) NUL) by done.
        by rewrite length_insert.
      * by repeat split.
  - destruct (Nat.ltb_spec (length (take len buf)) (LINE_BUF - 1)) as [Hroom|Hfull];
      rewrite Hacc in *; cbn [fst snd]; rewrite add_calls_nil.
    + exists (mkGlobals tc tr tl (<[len := c]> buf) (S len)).
      run_machine.
      destruct (Nat.ltb_spec len (LINE_BUF - 1)) as [_|?]; [|lia].
      run_machine. case_decide as Hin; [|unfold LINE_BUF in *; lia].
      run_machine.
      split; [reflexivity|]. split.
      * split; cbn [lineBuf lineLen]; [by rewrite length_insert|lia].
      * split; [|by repeat split]. cbn [lineBuf lineLen].
        rewrite (take_S_r _ _ c) by (by apply list_lookup_insert_eq).
        by rewrite take_insert_ge.
    + exists (mkGlobals tc tr tl buf len).
      run_machine.
      destruct (Nat.ltb_spec len (LINE_BUF - 1)) as [?|_]; [lia|].
      by repeat split.
Qed.
(** Draining the receive queue: the program loop acts on the machine as
    [feed_all] acts on the accumulated bytes, and never stops early. *)
Lemma drain_serial_feed_all (bs : list ascii) :
  forall (fuel : nat) (g : Globals) (e : Env) (t : Z) (q d c : nat) (u : bool)
         (ib : list (string * list ascii)) (cs : list Call),
    buffer_ok g ->
    (length bs < fuel)%nat ->
    exists g' : Globals,
      drain_serial fuel (mkMachine g (mkWorld e t q d c u bs ib cs))
      = Done tt (mkMachine g'
                   (mkWorld e t q d c u [] ib
                      (cs ++ map (fun l => mqtt_publish_call (tResp g) l false)
                                 (snd (feed_all (accumulated g) bs))))) /\
      buffer_ok g' /\
      accumulated g' = fst (feed_all (accumulated g) bs) /\
      tCmd g' = tCmd g /\ tResp g' = tResp g /\ tLwt g' = tLwt g.
Proof.
  induction bs as [|b bs IH]; intros fuel g e t q d c u ib cs Hok Hfuel;
    (destruct fuel as [|fuel]; [simpl in Hfuel; lia|]).
  - exists g. cbn [drain_serial feed_all fst snd map]. run_machine.
    rewrite app_nil_r. split; [reflexivity|]. split; [exact Hok|]. by repeat split.
  - cbn [drain_serial]. run_machine.
    destruct (on_serial_byte_feed b g (mkWorld e t q d c u bs ib cs) Hok)
      as (g1 & Hstep & Hok1 & Hacc1 & Hc1 & Hr1 & Hl1).
    rewrite Hstep. run_machine.
    cbn [feed_all]. destruct (feed (accumulated g) b) as [acc1 line] eqn:Efeed.
    cbn [fst snd] in *.
    destruct (IH fuel g1 e t q d c u ib
                (cs ++ match line with
                       | Some l => [mqtt_publish_call (tResp g) l false]
                       | None => []
                       end) Hok1)
      as (g2 & Hrun & Hok2 & Hacc2 & Hc2 & Hr2 & Hl2).
    { simpl in Hfuel. lia. }
    rewrite Hrun, Hacc1, Hr1. exists g2.
    destruct (feed_all acc1 bs) as [final lines] eqn:Erest. cbn [fst snd] in *.
    split.
    + rewrite <- app_assoc. by destruct line.
    + rewrite Hacc1, Erest in Hacc2. cbn [fst] in Hacc2. split; [exact Hok2|].
      repeat split; congruence.
Qed.
(** ** Segments of the input *)

Lemma split_on_cons (d : ascii) (bs : list ascii) :
  exists seg segs, split_on d bs = seg :: segs.
Proof.
  induction bs as [|c bs (seg & segs & IH)]; simpl; [by eauto|].
  destruct (Ascii.eqb c d); [by eauto|]. rewrite IH. by eauto.
Qed.

Lemma split_on_app (d : ascii) (pre bs : list ascii) :
  d ∉ pre ->
  split_on d (pre ++ bs)
  = match split_on d bs with
    | seg :: segs => (pre ++ seg) :: segs
    | [] => [pre]
    end.
Proof.
  destruct (split_on_cons d bs) as (seg & segs & Hbs). rewrite Hbs.
  induction pre as [|c pre IH]; intros Hnot; [done|].
  apply not_elem_of_cons in Hnot as [Hc Hpre]. simpl.
  destruct (Ascii.eqb_spec c d); [congruence|]. by rewrite IH.
Qed.

Lemma split_on_delim (pre bs : list ascii) :
  LF ∉ pre -> split_on LF (pre ++ LF :: bs) = pre :: split_on LF bs.
Proof.
  intros Hnot. rewrite split_on_app by done. simpl. by rewrite app_nil_r.
Qed.

Lemma split_on_end (pre : list ascii) : LF ∉ pre -> split_on LF pre = [pre].
Proof.
  intros Hnot. rewrite <- (app_nil_r pre) at 1. rewrite split_on_app by done.
  simpl. by rewrite app_nil_r.
Qed.

Lemma removelast_cons_split (pre bs : list ascii) :
  removelast (pre :: split_on LF bs) = pre :: removelast (split_on LF bs).
Proof. by destruct (split_on_cons LF bs) as (seg & segs & ->). Qed.

Lemma last_cons_split (pre bs : list ascii) :
  List.last (pre :: split_on LF bs) [] = List.last (split_on LF bs) [].
Proof. by destruct (split_on_cons LF bs) as (seg & segs & ->). Qed.

(** ** What the framer keeps of a segment *)

Lemma strip_cr_snoc (pre : list ascii) (c : ascii) :
  c <> CR -> strip_cr (pre ++ [c]) = strip_cr pre ++ [c].
Proof.
  intros Hc. unfold strip_cr. rewrite filter_app. f_equal.
  by rewrite filter_cons_True.
Qed.

Lemma strip_cr_snoc_cr (pre : list ascii) : strip_cr (pre ++ [CR]) = strip_cr pre.
Proof.
  unfold strip_cr. rewrite filter_app, filter_cons_False by (intros H; by apply H).
  by rewrite filter_nil, app_nil_r.
Qed.

Lemma kept_snoc (pre : list ascii) (c : ascii) :
  c <> CR ->
  kept (pre ++ [c])
  = if (length (kept pre) <? LINE_BUF - 1)%nat then kept pre ++ [c] else kept pre.
Proof.
  intros Hc. unfold kept. rewrite strip_cr_snoc by done.
  destruct (Nat.ltb_spec (length (take (LINE_BUF - 1) (strip_cr pre))) (LINE_BUF - 1))
    as [Hroom|Hfull]; rewrite length_take in *.
  - rewrite (take_ge (strip_cr pre)) by lia.
    apply take_ge. rewrite length_app. cbn [length]. lia.
  - apply take_app_le. lia.
Qed.

Lemma kept_nil_iff (pre : list ascii) : kept pre = [] <-> strip_cr pre = [].
Proof.
  unfold kept. split; [|by intros ->].
  intros H. apply take_nil_inv in H as [H|H]; [discriminate H|done].
Qed.

Lemma kept_snoc_cr (pre : list ascii) : kept (pre ++ [CR]) = kept pre.
Proof. unfold kept. by rewrite strip_cr_snoc_cr. Qed.

Lemma feed_all_cons (acc : list ascii) (c : ascii) (bs : list ascii) :
  feed_all acc (c :: bs)
  = let rest := feed_all (fst (feed acc c)) bs in
    (fst rest, match snd (feed acc c) with
               | Some l => l :: snd rest
               | None => snd rest
               end).
Proof.
  cbn [feed_all]. destruct (feed acc c) as [acc' line]. cbn [fst snd].
  destruct (feed_all acc' bs). reflexivity.
Qed.

Lemma feed_cr (acc : list ascii) : feed acc CR = (acc, None).
Proof. reflexivity. Qed.

Lemma feed_lf (acc : list ascii) :
  feed acc LF
  = ([], match acc with
         | [] => None
         | _ :: _ => Some (string_of_list_ascii (before_nul acc))
         end).
Proof. destruct acc; reflexivity. Qed.

Lemma feed_other (acc : list ascii) (c : ascii) :
  c <> CR -> c <> LF ->
  feed acc c
  = (if (length acc <? LINE_BUF - 1)%nat then acc ++ [c] else acc, None).
Proof.
  intros Hcr Hlf. unfold feed.
  destruct (Ascii.eqb_spec c CR); [done|].
  destruct (Ascii.eqb_spec c LF); [done|].
  by destruct (_ <? _)%nat.
Qed.

Lemma not_elem_of_snoc (pre : list ascii) (c d : ascii) :
  d ∉ pre -> c <> d -> d ∉ pre ++ [c].
Proof.
  intros Hpre Hc. rewrite not_elem_of_app, not_elem_of_cons.
  split_and!; [done|congruence|apply not_elem_of_nil].
Qed.

(** The framer on a whole input, in terms of its newline-delimited
    segments; [pre] is the part of the current segment already consumed. *)
Lemma feed_all_segments (bs : list ascii) :
  forall pre : list ascii,
    LF ∉ pre ->
    feed_all (kept pre) bs
    = (kept (List.last (split_on LF (pre ++ bs)) []),
       c_string_lines (removelast (split_on LF (pre ++ bs)))).
Proof.
  induction bs as [|c bs IH]; intros pre Hpre.
  - rewrite app_nil_r, split_on_end by done. reflexivity.
  - rewrite feed_all_cons.
    destruct (decide (c = CR)) as [->|Hcr].
    { rewrite feed_cr. cbn [fst snd]. cbv zeta.
      rewrite <- kept_snoc_cr, IH, <- app_assoc; [done|].
      by apply not_elem_of_snoc. }
    destruct (decide (c = LF)) as [->|Hlf].
    { rewrite feed_lf. cbn [fst snd]. cbv zeta.
      rewrite split_on_delim, removelast_cons_split, last_cons_split by done.
      specialize (IH [] (not_elem_of_nil _)).
      change (kept []) with (@nil ascii) in IH. rewrite app_nil_l in IH.
      rewrite IH. cbn [fst snd]. f_equal.
      unfold c_string_lines. cbn [map].
      destruct (kept pre) as [|a acc] eqn:Ekept.
      - apply kept_nil_iff in Ekept. rewrite Ekept.
        by rewrite filter_cons_False by (intros H; by apply H).
      - assert (strip_cr pre <> []) as Hne.
        { intros H. apply kept_nil_iff in H. congruence. }
        rewrite filter_cons_True by done. cbn [map].
        fold (kept pre). by rewrite Ekept. }
    rewrite feed_other by done. cbn [fst snd]. cbv zeta.
    rewrite <- kept_snoc by done.
    rewrite IH, <- app_assoc; [done|].
    by apply not_elem_of_snoc.
Qed.

Lemma feed_all_from_empty (bs : list ascii) :
  feed_all [] bs
  = (kept (unterminated_tail bs), c_string_lines (terminated_segments bs)).
Proof. apply (feed_all_segments bs []), not_elem_of_nil. Qed.
(** ** Inputs without NUL *)

Lemma split_on_Forall (P : ascii -> Prop) (d : ascii) (bs : list ascii) :
  Forall P bs -> Forall (Forall P) (split_on d bs).
Proof.
  induction 1 as [|c bs Hc Hbs IH]; simpl; [by repeat constructor|].
  destruct (Ascii.eqb c d); [by constructor|].
  destruct (split_on d bs) as [|seg segs]; [by repeat constructor|].
  inversion IH; subst. by repeat constructor.
Qed.

Lemma Forall_removelast {A} (P : A -> Prop) (l : list A) :
  Forall P l -> Forall P (removelast l).
Proof.
  induction 1 as [|x l Hx Hl IH]; simpl; [done|].
  destruct l; by constructor.
Qed.

Lemma kept_line_nul_free (seg : list ascii) :
  Forall (fun c => c <> NUL) seg ->
  before_nul (take (LINE_BUF - 1) (strip_cr seg)) = take (LINE_BUF - 1) (strip_cr seg).
Proof.
  intros Hseg. apply before_nul_free. intros Hin.
  apply subseteq_take, list_elem_of_filter in Hin as [_ Hin].
  rewrite Forall_forall in Hseg. by apply (Hseg NUL).
Qed.

Lemma c_string_lines_nul_free (segs : list (list ascii)) :
  Forall (Forall (fun c => c <> NUL)) segs ->
  c_string_lines segs = framed_lines segs.
Proof.
  unfold c_string_lines, framed_lines.
  induction 1 as [|seg segs Hseg Hsegs IH]; [done|].
  cbn [map]. rewrite filter_cons. case_decide; [|exact IH].
  cbn [map]. by rewrite IH, kept_line_nul_free.
Qed.

Lemma terminated_segments_nul_free (bs : list ascii) :
  NUL ∉ bs -> Forall (Forall (fun c => c <> NUL)) (terminated_segments bs).
Proof.
  intros Hfree. apply Forall_removelast, split_on_Forall.
  apply Forall_forall. intros c Hc ->. done.
Qed.

(** * The specified properties *)

(** ** C3: channel derivation *)

(** C3.  For every identity [ID] (in particular every non-empty one),
    [setupTopics] leaves in the global variables exactly the three channel
    names [crane/ID/cmd], [crane/ID/resp] and [crane/ID/lwt]; they all start
    with [crane/ID] and are pairwise distinct; the result depends on [ID]
    alone: whatever the machine before, the names are the same, and nothing
    but the three names changes. *)
Theorem channel_derivation (ID : string) (m m2 : Machine) :
  exists m' m2' : Machine,
    setupTopics ID m = Done tt m' /\
    setupTopics ID m2 = Done tt m2' /\
    derived_channels ID (vars m') /\
    String.prefix ("crane/" +:+ ID) (tCmd (vars m')) = true /\
    String.prefix ("crane/" +:+ ID) (tResp (vars m')) = true /\
    String.prefix ("crane/" +:+ ID) (tLwt (vars m')) = true /\
    tCmd (vars m') <> tResp (vars m') /\
    tCmd (vars m') <> tLwt (vars m') /\
    tResp (vars m') <> tLwt (vars m') /\
    (tCmd (vars m2'), tResp (vars m2'), tLwt (vars m2'))
    = (tCmd (vars m'), tResp (vars m'), tLwt (vars m')) /\
    world m' = world m /\
    lineBuf (vars m') = lineBuf (vars m) /\
    lineLen (vars m') = lineLen (vars m).
Proof.
  do 2 eexists. rewrite !setupTopics_run.
  split; [reflexivity|]. split; [reflexivity|].
  cbn [vars world with_vars set_topics tCmd tResp tLwt lineBuf lineLen].
  split; [by repeat split|].
  rewrite <- !(string_app_assoc "crane/" ID).
  split_and!; try apply string_prefix_app; try reflexivity.
  all: rewrite !string_app_assoc; apply channel_names_distinct.
Qed.

(** ** C2 and C6: the message callback *)

(** C2.  For every payload [P] delivered on the command channel, [onMqtt]
    writes to the serial peripheral the bytes of [P], verbatim and in order,
    followed by one newline if [P] is empty or its last byte is not a
    newline, and nothing after [P] otherwise; it does nothing else. *)
Theorem command_forwarding (topic : string) (P : list ascii) (m : Machine) :
  topic = tCmd (vars m) ->
  exists m' : Machine,
    onMqtt topic P m = Done tt m' /\
    m' = emit (map Serial_write_call (newline_terminated P)) m /\
    serial_written (calls (world m'))
    = serial_written (calls (world m)) ++ newline_terminated P /\
    newline_terminated P
    = match last P with
      | None => P ++ [LF]
      | Some c => if Ascii.eqb c LF then P else P ++ [LF]
      end.
Proof.
  intros ->. eexists. split; [apply onMqtt_command|]. split; [reflexivity|].
  split.
  - by rewrite calls_emit, serial_written_app, serial_written_writes.
  - unfold newline_terminated, ends_with_newline. by destruct (last P).
Qed.

(** C6.  For every inbound message whose channel name is not the command
    channel, [onMqtt] leaves the machine as it was: no call is issued, so no
    byte is written to the serial peripheral, whatever the payload. *)
Theorem other_channels_ignored (topic : string) (P : list ascii) (m : Machine) :
  topic <> tCmd (vars m) ->
  onMqtt topic P m = Done tt m /\
  forall m' : Machine,
    onMqtt topic P m = Done tt m' ->
    serial_written (calls (world m')) = serial_written (calls (world m)).
Proof.
  intros Hne. split; [by apply onMqtt_other|].
  intros m' Hrun. rewrite onMqtt_other in Hrun by done. by inversion Hrun.
Qed.

(** ** C10: the publish wrapper *)

(** C10.  The fourth argument of [publish] has no effect: for every topic,
    payload and retain flag, any two values of it give the same run, whose
    only effect is the call [mqtt.publish(topic, payload, retain)], a call
    that has no argument for a delivery-assurance level.  Consequently the
    response lines and the online presence record, which go through this
    wrapper, are published without a level: whatever bytes [drain_serial]
    drains, the calls it issues are the publishes of the completed lines on
    the response channel, each with no level;
    and a connect attempt of [ensureMqtt] that the broker accepts issues the
    connect request with the last will at level 1, then the publish of the
    online record with no level, then the subscription at level 1. *)
Theorem publish_ignores_qos (ID topic payload : string) (retain : bool)
    (q1 q2 : Z) (fuel : nat) (m : Machine) :
  publish topic payload retain q1 m = publish topic payload retain q2 m /\
  (exists m' : Machine,
     publish topic payload retain q1 m = Done tt m' /\
     calls (world m')
     = calls (world m) ++ [mqtt_publish_call topic payload retain] /\
     vars m' = vars m) /\
  (buffer_ok (vars m) ->
   (length (serial_rx (world m)) < fuel)%nat ->
   exists (m' : Machine) (issued : list Call),
     drain_serial fuel m = Done tt m' /\
     calls (world m') = calls (world m) ++ issued /\
     issued
     = map (fun l => mqtt_publish_call (tResp (vars m)) l false)
           (snd (feed_all (accumulated (vars m)) (serial_rx (world m)))) /\
     Forall (fun c => requested_qos c = None) issued) /\
  (mqtt_up (world m) = false ->
   broker_accepts_at (env (world m)) (connects (world m)) = true ->
   exists (m' : Machine) (clientId : string) (issued : list Call),
     ensureMqtt ID m = Done tt m' /\
     calls (world m') = calls (world m) ++ issued /\
     issued
     = [mqtt_setServer_call MQTT_HOST MQTT_PORT; mqtt_setCallback_call;
        mqtt_connect_call clientId (tLwt (vars m)) 1 true (presence_text false ID);
        mqtt_publish_call (tLwt (vars m)) (presence_text true ID) true;
        mqtt_subscribe_call (tCmd (vars m)) 1] /\
     map requested_qos issued = [None; None; Some 1; None; Some 1]).
Proof.
  split; [reflexivity|]. split; [|split].
  - eexists. split; [reflexivity|]. split; reflexivity.
  - destruct m as [g [e t q d c u rx ib cs]].
    cbn [vars world serial_rx calls]. intros Hok Hfuel.
    destruct (drain_serial_feed_all rx fuel g e t q d c u ib cs Hok Hfuel)
      as (g' & Hrun & _).
    do 2 eexists. split; [exact Hrun|]. cbn [vars world calls].
    split; [reflexivity|]. split; [reflexivity|].
    apply Forall_forall. intros call Hin.
    apply list_elem_of_fmap in Hin as (line & -> & _). reflexivity.
  - intros Hdown Haccepted.
    pose proof (ensureMqtt_attempt ID m Hdown) as Hrun. cbv zeta in Hrun.
    rewrite Haccepted in Hrun.
    do 3 eexists. split; [exact Hrun|]. cbn [vars world calls].
    split; [reflexivity|]. split; reflexivity.
Qed.

(** ** C5: the ensure operations when already connected *)

(** C5.  When the link status query answers connected, [ensureWifi] returns
    at once, for any loop bound: the log of calls, the clock, the session
    and the global variables are as before, the only trace being that the
    environment has answered one status query.  When the broker session is
    up, [ensureMqtt] returns the machine unchanged. *)
Theorem ensure_idempotent (ID : string) (fuel : nat) (m : Machine) :
  (wifi_connected_at (env (world m)) (wifi_queries (world m)) = true ->
   exists m' : Machine,
     ensureWifi fuel m = Done tt m' /\
     m' = with_world (set_wifi_queries (S (wifi_queries (world m))) (world m)) m /\
     calls (world m') = calls (world m) /\
     clock (world m') = clock (world m) /\
     delays (world m') = delays (world m) /\
     connects (world m') = connects (world m) /\
     mqtt_up (world m') = mqtt_up (world m) /\
     vars m' = vars m) /\
  (mqtt_up (world m) = true -> ensureMqtt ID m = Done tt m).
Proof.
  split.
  - intros Hup. eexists. split; [by apply ensureWifi_connected|].
    by repeat split.
  - apply ensureMqtt_connected.
Qed.

(** ** C4: presence *)

(** C4.  With the channel names derived and the session down, [ensureMqtt]
    issues a connect request whose last will is the text
    [{"online":false,"id":"ID"}] on the presence channel, at level 1,
    retained.  When the broker accepts, the next two calls are the publish
    of [{"online":true,"id":"ID"}] on the presence channel, retained, and
    then the subscription to the command channel at level 1; when it
    refuses, no further call is issued. *)
Theorem presence_on_connect (ID : string) (m : Machine) :
  derived_channels ID (vars m) ->
  mqtt_up (world m) = false ->
  let w := world m in
  let accepted := broker_accepts_at (env w) (connects w) in
  let request :=
    [mqtt_setServer_call MQTT_HOST MQTT_PORT; mqtt_setCallback_call;
     mqtt_connect_call (ID +:+ "-" +:+ String_HEX (chip_id (env w)))
                       ("crane/" +:+ ID +:+ "/lwt") 1 true
                       (presence_text false ID)] in
  let announce :=
    [mqtt_publish_call ("crane/" +:+ ID +:+ "/lwt") (presence_text true ID) true;
     mqtt_subscribe_call ("crane/" +:+ ID +:+ "/cmd") 1] in
  exists m' : Machine,
    ensureMqtt ID m = Done tt m' /\
    vars m' = vars m /\
    mqtt_up (world m') = accepted /\
    calls (world m') = calls w ++ request ++ (if accepted then announce else []).
Proof.
  intros (Hcmd & _ & Hlwt) Hdown. cbv zeta.
  eexists. split; [by apply ensureMqtt_attempt|].
  cbn [vars world mqtt_up calls]. rewrite Hcmd, Hlwt. by repeat split.
Qed.

(** ** C1, C7 and C9: the line framer *)

(** C1, as the code has it.  Draining any byte sequence from a well-formed
    empty line buffer publishes on the response channel, not retained and in
    order, one line for each newline-terminated segment of the input that is
    not empty once its carriage returns are removed: the segment without
    carriage returns, cut to [LINE_BUF - 1 = 255] characters and then ended
    before its first NUL.  No other call is issued.  The bytes after the
    last newline are not published: they stay accumulated in the buffer.
    For an input without NUL the published lines are those of the
    specification's wording, over the terminated segments. *)
Theorem framing_of_drained_bytes (fuel : nat) (m : Machine) :
  buffer_ok (vars m) ->
  lineLen (vars m) = 0%nat ->
  (length (serial_rx (world m)) < fuel)%nat ->
  let input := serial_rx (world m) in
  let resp := tResp (vars m) in
  let lines := c_string_lines (terminated_segments input) in
  exists m' : Machine,
    drain_serial fuel m = Done tt m' /\
    calls (world m')
    = calls (world m) ++ map (fun l => mqtt_publish_call resp l false) lines /\
    published_on resp (calls (world m'))
    = published_on resp (calls (world m)) ++ lines /\
    accumulated (vars m') = kept (unterminated_tail input) /\
    (NUL ∉ input -> lines = framed_lines (terminated_segments input)).
Proof.
  destruct m as [g [e t q d c u rx ib cs]].
  cbn [vars world serial_rx calls]. intros Hok Hempty Hfuel. cbv zeta.
  destruct (drain_serial_feed_all rx fuel g e t q d c u ib cs Hok Hfuel)
    as (g' & Hrun & _ & Hacc & _).
  assert (accumulated g = []) as Hnil by (unfold accumulated; by rewrite Hempty).
  rewrite Hnil, feed_all_from_empty in Hrun, Hacc. cbn [fst snd] in Hrun, Hacc.
  eexists. split; [exact Hrun|]. cbn [vars world calls].
  split; [done|]. split; [by rewrite published_on_app, published_on_publishes|].
  split; [done|].
  intros Hfree. by apply c_string_lines_nul_free, terminated_segments_nul_free.
Qed.

(** C7.  From a well-formed line buffer (the empty buffer of the power-on
    state is one), the sketch processes any bytes without ever storing
    outside [lineBuf]: after each prefix of the receive queue the run has
    ended normally, the array still has its [LINE_BUF = 256] cells and the
    fill length is at most [LINE_BUF - 1 = 255], so that the terminator
    written at index [lineLen] is inside the array.  A byte other than the
    newline that arrives when the fill length is 255 leaves the whole
    machine, buffer contents and length included, as it was. *)
Theorem line_buffer_bound (fuel k : nat) (c : ascii) (m : Machine) :
  buffer_ok (vars m) ->
  (length (serial_rx (world m)) < fuel)%nat ->
  (exists m' : Machine,
     drain_serial fuel
       (with_world (set_serial_rx (take k (serial_rx (world m))) (world m)) m)
     = Done tt m' /\
     length (lineBuf (vars m')) = LINE_BUF /\
     (0 <= lineLen (vars m') <= LINE_BUF - 1)%nat) /\
  (lineLen (vars m) = (LINE_BUF - 1)%nat -> c <> LF ->
   on_serial_byte c m = Done tt m).
Proof.
  destruct m as [g [e t q d n u rx ib cs]].
  cbn [vars world serial_rx with_world set_serial_rx env clock wifi_queries
       delays connects mqtt_up mqtt_inbox calls].
  intros Hok Hfuel. split.
  - destruct (drain_serial_feed_all (take k rx) fuel g e t q d n u ib cs Hok)
      as (g' & Hrun & [Hsize Hlen] & _).
    { rewrite length_take. lia. }
    eexists. split; [exact Hrun|]. cbn [vars]. split; [done|lia].
  - intros Hfull Hc. unfold on_serial_byte.
    destruct (Ascii.eqb c CR); [reflexivity|].
    destruct (Ascii.eqb_spec c LF); [done|].
    run_machine. rewrite Hfull, Nat.ltb_irrefl. reflexivity.
Qed.

(** C9.  When the bytes accumulated for a line (the segment without its
    carriage returns, cut to 255 characters) contain a NUL, the line
    published at the newline is the part strictly before the first NUL:
    what follows it up to the newline is not published, whatever the length
    of the line. *)
Theorem nul_cuts_published_line (fuel : nat) (line pre post : list ascii)
    (m : Machine) :
  buffer_ok (vars m) ->
  lineLen (vars m) = 0%nat ->
  serial_rx (world m) = line ++ [LF] ->
  LF ∉ line ->
  kept line = pre ++ NUL :: post ->
  NUL ∉ pre ->
  (length line + 1 < fuel)%nat ->
  exists m' : Machine,
    drain_serial fuel m = Done tt m' /\
    calls (world m')
    = calls (world m)
      ++ [mqtt_publish_call (tResp (vars m)) (string_of_list_ascii pre) false] /\
    lineLen (vars m') = 0%nat.
Proof.
  destruct m as [g [e t q d c u rx ib cs]].
  cbn [vars world serial_rx calls].
  intros Hok Hempty -> Hline Hkept Hpre Hfuel.
  destruct (drain_serial_feed_all (line ++ [LF]) fuel g e t q d c u ib cs Hok)
    as (g' & Hrun & Hok' & Hacc & _).
  { rewrite length_app. cbn [length]. lia. }
  assert (accumulated g = []) as Hnil by (unfold accumulated; by rewrite Hempty).
  rewrite Hnil, feed_all_from_empty in Hrun, Hacc.
  unfold terminated_segments, unterminated_tail in Hrun, Hacc.
  rewrite split_on_delim in Hrun, Hacc by done.
  cbn [split_on removelast List.last fst snd] in Hrun, Hacc.
  assert (strip_cr line <> []) as Hne.
  { intros H. apply kept_nil_iff in H. rewrite H in Hkept. by destruct pre. }
  unfold c_string_lines in Hrun. cbn [map] in Hrun.
  rewrite filter_cons_True in Hrun by done. cbn [map] in Hrun.
  fold (kept line) in Hrun. rewrite Hkept, before_nul_split in Hrun by done.
  eexists. split; [exact Hrun|]. cbn [vars world calls]. split; [done|].
  rewrite <- (accumulated_length g') by done. by rewrite Hacc.
Qed.

(** ** C8: the bounded wait of [ensureWifi] *)

(** C8.  Time is modelled by the millisecond clock, which advances only in
    [delay], by the time asked for plus a bounded overrun ([0 <= lag <= L]
    with [20300 + L < 2^32]).  When the link is not connected, [ensureWifi]
    starts the station-mode association and then polls the link status with
    [delay(300)] between polls; with a loop bound of at least 67 it always
    returns, after [n <= 67] delays, having issued no call but the
    association and the delays.  It never waits after a poll that reported
    connected, and it returns either on such a poll, within 20000 ms, or
    without one as soon as the time waited exceeds 20000 ms, which is then
    at most [20300 + L] ms. *)
Theorem ensureWifi_bounded_wait (L : Z) (fuel : nat) (m : Machine) :
  0 <= clock (world m) < 2 ^ 32 ->
  (forall k, 0 <= delay_lag_at (env (world m)) k <= L) ->
  20300 + L < 2 ^ 32 ->
  (67 <= fuel)%nat ->
  wifi_connected_at (env (world m)) (wifi_queries (world m)) = false ->
  exists (n : nat) (m' : Machine),
    (n <= 67)%nat /\
    ensureWifi fuel m = Done tt m' /\
    vars m' = vars m /\
    calls (world m')
    = calls (world m)
      ++ [WiFi_mode_STA_call; WiFi_begin_call WIFI_SSID WIFI_PASS]
      ++ replicate n (delay_call 300) /\
    clock (world m')
    = uint32 (clock (world m) + waited (env (world m)) (delays (world m)) n) /\
    (forall k, (k < n)%nat ->
       wifi_connected_at (env (world m)) (S (wifi_queries (world m)) + k) = false) /\
    ((wifi_connected_at (env (world m)) (S (wifi_queries (world m)) + n) = true
      /\ waited (env (world m)) (delays (world m)) n <= 20000)
     \/ ((0 < n)%nat
         /\ 20000 < waited (env (world m)) (delays (world m)) n <= 20300 + L)).
Proof.
  destruct m as [g [e t q d c u rx ib cs]]. cbn [world vars env clock wifi_queries delays calls].
  intros Ht Hlag HL Hfuel Hq.
  destruct (ensureWifi_wait_spec L fuel g e t (S q) d c u rx ib
              (cs ++ [WiFi_mode_STA_call] ++ [WiFi_begin_call WIFI_SSID WIFI_PASS])
              t 0 Hlag HL)
    as (n & q' & Hn & Hrun & Hfalse & Hend).
  { rewrite Z.add_0_r. symmetry. by apply uint32_small. }
  { lia. }
  { lia. }
  exists n. eexists. split; [lia|]. split.
  { unfold ensureWifi. run_machine. rewrite Hq. run_machine.
    rewrite <- app_assoc. exact Hrun. }
  cbn [world vars env clock wifi_queries delays calls].
  split; [done|]. split; [by rewrite <- !app_assoc|].
  split; [by rewrite Z.add_0_r|]. split; [exact Hfalse|].
  destruct Hend as [(H1 & H2 & _)|(H1 & H2 & _)]; [left|right]; split; try done; lia.
Qed.

(** * The claims on concrete runs *)

(** The specification's scenario for the response path: two lines, each
    published once, not retained. *)
Example framing_scenario :
  exists m' : Machine,
    drain_serial 20
      (bench link_up
         ["G"; "1"; " "; "X"; "1"; "0"; CR; LF;
          "G"; "1"; " "; "Y"; "2"; "0"; LF]%char)
    = Done tt m' /\
    calls (world m')
    = [mqtt_publish_call "crane/crane-1/resp" "G1 X10" false;
       mqtt_publish_call "crane/crane-1/resp" "G1 Y20" false].
Proof. eexists. split; vm_compute; reflexivity. Qed.

(** The specification's scenario for the command path. *)
Example command_scenario :
  onMqtt "crane/crane-1/cmd" ["G"; "2"; "8"]%char (bench link_up [])
  = Done tt (emit (map Serial_write_call ["G"; "2"; "8"; LF]%char)
                  (bench link_up [])).
Proof. reflexivity. Qed.

(** The presence texts for the configured identity, character by
    character. *)
Example presence_text_online :
  list_ascii_of_string (presence_text true crane_1)
  = ["{"; DQ; "o"; "n"; "l"; "i"; "n"; "e"; DQ; ":"; "t"; "r"; "u"; "e"; ",";
     DQ; "i"; "d"; DQ; ":"; DQ; "c"; "r"; "a"; "n"; "e"; "-"; "1"; DQ; "}"]%char.
Proof. reflexivity. Qed.

Example presence_text_offline :
  list_ascii_of_string (presence_text false crane_1)
  = ["{"; DQ; "o"; "n"; "l"; "i"; "n"; "e"; DQ; ":"; "f"; "a"; "l"; "s"; "e"; ",";
     DQ; "i"; "d"; DQ; ":"; DQ; "c"; "r"; "a"; "n"; "e"; "-"; "1"; DQ; "}"]%char.
Proof. reflexivity. Qed.

(** With exact delays and a link that never comes up, the wait ends after
    67 delays, 20100 ms after it began. *)
Example ensureWifi_timeout_run :
  exists m' : Machine,
    ensureWifi 67 (bench link_down []) = Done tt m' /\
    clock (world m') = 20100 /\
    delays (world m') = 67%nat /\
    wifi_queries (world m') = 68%nat.
Proof. eexists. split; [vm_compute; reflexivity|]. by repeat split. Qed.

(** C1 as worded fails on a line that holds a NUL: the input [a NUL b LF]
    has the single non-empty segment [a NUL b], and the sketch publishes
    [a].  This holds whether the last, unterminated segment counts among the
    newline-delimited segments or not. *)
Lemma framing_claim_fails_on_nul :
  let input := ["a"; NUL; "b"; LF]%char in
  exists m' : Machine,
    drain_serial 5 (bench link_up input) = Done tt m' /\
    published_on "crane/crane-1/resp" (calls (world m')) = ["a"] /\
    published_on "crane/crane-1/resp" (calls (world m'))
    <> framed_lines (newline_segments input) /\
    published_on "crane/crane-1/resp" (calls (world m'))
    <> framed_lines (terminated_segments input).
Proof.
  eexists. split; [vm_compute; reflexivity|].
  split; [reflexivity|]. split; vm_compute; discriminate.
Qed.

(** ** The theorems at concrete inputs *)

Lemma framing_of_drained_bytes_witness :
  exists m' : Machine,
    drain_serial 20
      (bench link_up
         ["G"; "1"; " "; "X"; "1"; "0"; CR; LF; LF; "o"; NUL; "k"; LF; "Y"]%char)
    = Done tt m' /\
    calls (world m')
    = [mqtt_publish_call "crane/crane-1/resp" "G1 X10" false;
       mqtt_publish_call "crane/crane-1/resp" "o" false] /\
    accumulated (vars m') = ["Y"]%char.
Proof.
  destruct (framing_of_drained_bytes 20
              (bench link_up
                 ["G"; "1"; " "; "X"; "1"; "0"; CR; LF; LF; "o"; NUL; "k"; LF; "Y"]%char))
    as (m' & Hrun & Hcalls & _ & Hacc & _).
  - split; [reflexivity|]. vm_compute. lia.
  - reflexivity.
  - vm_compute. lia.
  - exists m'. split; [exact Hrun|]. split; [exact Hcalls|exact Hacc].
Defined.

Lemma command_forwarding_witness :
  exists m' : Machine,
    onMqtt "crane/crane-1/cmd" ["G"; "2"; "8"]%char (bench link_up []) = Done tt m' /\
    serial_written (calls (world m')) = ["G"; "2"; "8"; LF]%char.
Proof.
  destruct (command_forwarding "crane/crane-1/cmd" ["G"; "2"; "8"]%char
              (bench link_up []))
    as (m' & Hrun & _ & Hbytes & _).
  - reflexivity.
  - exists m'. split; [exact Hrun|exact Hbytes].
Defined.

Lemma other_channels_ignored_witness :
  onMqtt "crane/crane-2/cmd" ["G"; "2"; "8"]%char (bench link_up [])
  = Done tt (bench link_up []).
Proof.
  refine (proj1 (other_channels_ignored "crane/crane-2/cmd" ["G"; "2"; "8"]%char
                   (bench link_up []) _)).
  vm_compute. discriminate.
Defined.

Lemma presence_on_connect_witness :
  exists m' : Machine,
    ensureMqtt crane_1 (bench link_up []) = Done tt m' /\
    calls (world m')
    = [mqtt_setServer_call "192.168.1.2" 1883; mqtt_setCallback_call;
       mqtt_connect_call "crane-1-abcdef" "crane/crane-1/lwt" 1 true
                         (presence_text false crane_1);
       mqtt_publish_call "crane/crane-1/lwt" (presence_text true crane_1) true;
       mqtt_subscribe_call "crane/crane-1/cmd" 1].
Proof.
  destruct (presence_on_connect crane_1 (bench link_up []))
    as (m' & Hrun & _ & _ & Hcalls).
  - repeat split.
  - reflexivity.
  - exists m'. split; [exact Hrun|exact Hcalls].
Defined.

Lemma ensure_idempotent_witness :
  (exists m' : Machine,
     ensureWifi 0 (bench link_up []) = Done tt m' /\
     calls (world m') = calls (world (bench link_up []))) /\
  ensureMqtt crane_1 (emit [] (with_world (set_mqtt_up true (world (bench link_up [])))
                                          (bench link_up [])))
  = Done tt (emit [] (with_world (set_mqtt_up true (world (bench link_up [])))
                                 (bench link_up []))).
Proof.
  split.
  - destruct (proj1 (ensure_idempotent crane_1 0 (bench link_up [])))
      as (m' & Hrun & _ & Hcalls & _).
    + reflexivity.
    + exists m'. split; [exact Hrun|exact Hcalls].
  - refine (proj2 (ensure_idempotent crane_1 0 _) _). reflexivity.
Defined.

Lemma line_buffer_bound_witness :
  (exists m' : Machine,
     drain_serial 4
       (with_world (set_serial_rx (take 2 ["a"; "b"; LF]%char)
                                  (world (bench link_up ["a"; "b"; LF]%char)))
                   (bench link_up ["a"; "b"; LF]%char))
     = Done tt m' /\
     length (lineBuf (vars m')) = LINE_BUF /\
     (0 <= lineLen (vars m') <= LINE_BUF - 1)%nat) /\
  on_serial_byte "x"
    (with_vars (set_lineLen 255 (vars (bench link_up []))) (bench link_up []))
  = Done tt (with_vars (set_lineLen 255 (vars (bench link_up []))) (bench link_up [])).
Proof.
  split.
  - refine (proj1 (line_buffer_bound 4 2 "x" (bench link_up ["a"; "b"; LF]%char) _ _)).
    + split; [reflexivity|]. vm_compute. lia.
    + vm_compute. lia.
  - refine (proj2 (line_buffer_bound 1 0 "x"
                     (with_vars (set_lineLen 255 (vars (bench link_up [])))
                                (bench link_up [])) _ _) _ _).
    + split; [reflexivity|]. vm_compute. lia.
    + vm_compute. lia.
    + reflexivity.
    + vm_compute. discriminate.
Defined.

Lemma ensureWifi_bounded_wait_witness :
  exists (n : nat) (m' : Machine),
    (n <= 67)%nat /\
    ensureWifi 67 (bench link_down []) = Done tt m' /\
    calls (world m')
    = [WiFi_mode_STA_call; WiFi_begin_call WIFI_SSID WIFI_PASS]
      ++ replicate n (delay_call 300).
Proof.
  destruct (ensureWifi_bounded_wait 0 67 (bench link_down []))
    as (n & m' & Hn & Hrun & _ & Hcalls & _).
  - vm_compute. split; [discriminate|reflexivity].
  - intros k. vm_compute. split; discriminate.
  - reflexivity.
  - lia.
  - reflexivity.
  - exists n, m'. split; [exact Hn|]. split; [exact Hrun|exact Hcalls].
Defined.

Lemma nul_cuts_published_line_witness :
  exists m' : Machine,
    drain_serial 6 (bench link_up ["o"; "k"; NUL; "!"; LF]%char) = Done tt m' /\
    calls (world m')
    = [mqtt_publish_call "crane/crane-1/resp" "ok" false] /\
    lineLen (vars m') = 0%nat.
Proof.
  destruct (nul_cuts_published_line 6 ["o"; "k"; NUL; "!"]%char
              ["o"; "k"]%char ["!"]%char
              (bench link_up ["o"; "k"; NUL; "!"; LF]%char))
    as (m' & Hrun & Hcalls & Hlen).
  - split; [reflexivity|]. vm_compute. lia.
  - reflexivity.
  - reflexivity.
  - absent_byte.
  - reflexivity.
  - absent_byte.
  - vm_compute. lia.
  - exists m'. split; [exact Hrun|]. split; [exact Hcalls|exact Hlen].
Defined.

Lemma publish_ignores_qos_witness :
  (exists (m' : Machine) (issued : list Call),
     drain_serial 4 (bench link_up ["o"; "k"; LF]%char) = Done tt m' /\
     calls (world m') = issued /\
     Forall (fun c => requested_qos c = None) issued) /\
  (exists (m' : Machine) (issued : list Call),
     ensureMqtt crane_1 (bench link_up []) = Done tt m' /\
     calls (world m') = issued /\
     map requested_qos issued = [None; None; Some 1; None; Some 1]).
Proof.
  split.
  - destruct (proj1 (proj2 (proj2
                (publish_ignores_qos crane_1 "crane/crane-1/resp" "ok" false 1 0 4
                   (bench link_up ["o"; "k"; LF]%char)))))
      as (m' & issued & Hrun & Hcalls & _ & Hqos).
    + split; [reflexivity|]. vm_compute. lia.
    + vm_compute. lia.
    + exists m', issued. split; [exact Hrun|]. split; [exact Hcalls|exact Hqos].
  - destruct (proj2 (proj2 (proj2
                (publish_ignores_qos crane_1 "crane/crane-1/lwt" "ok" true 1 0 0
                   (bench link_up [])))))
      as (m' & clientId & issued & Hrun & Hcalls & _ & Hqos).
    + reflexivity.
    + reflexivity.
    + exists m', issued. split; [exact Hrun|]. split; [exact Hcalls|exact Hqos].
Defined.

(** * Further properties of the sketch *)

(** ** The framer, whatever the world *)

(** One byte through the framer, for every world at once: the new global
    variables and the calls issued depend on the old global variables and
    the byte alone. *)
Lemma on_serial_byte_step (c : ascii) (g : Globals) :
  buffer_ok g ->
  exists (g' : Globals) (out : list Call),
    (forall w : World,
       on_serial_byte c (mkMachine g w) = Done tt (mkMachine g' (add_calls out w))) /\
    out = match snd (feed (accumulated g) c) with
          | Some l => [mqtt_publish_call (tResp g) l false]
          | None => []
          end /\
    buffer_ok g' /\
    accumulated g' = fst (feed (accumulated g) c) /\
    tCmd g' = tCmd g /\ tResp g' = tResp g /\ tLwt g' = tLwt g.
Proof.
  intros Hok. pose proof (accumulated_length g Hok) as Hacc.
  destruct Hok as [Hsize Hlen].
  destruct g as [tc tr tl buf len]. unfold accumulated in *.
  cbn [lineBuf lineLen tCmd tResp tLwt] in *.
  unfold feed.
  destruct (Ascii.eqb c CR) eqn:Ecr.
  { exists (mkGlobals tc tr tl buf len), []. cbn [fst snd].
    split; [|by repeat split].
    intros w. unfold on_serial_byte. rewrite Ecr, add_calls_nil. reflexivity. }
  destruct (Ascii.eqb c LF) eqn:Elf.
  - destruct len as [|len].
    + exists (mkGlobals tc tr tl buf 0), []. rewrite take_0. cbn [fst snd].
      split; [|by repeat split].
      intros w. unfold on_serial_byte. rewrite Ecr, Elf, add_calls_nil. reflexivity.
    + destruct (take (S len) buf) as [|a acc] eqn:Etake; [done|].
      rewrite <- Etake. cbn [fst snd].
      assert (S len < length buf)%nat as Hin by (unfold LINE_BUF in *; lia).
      exists (mkGlobals tc tr tl (<[S len := NUL]> buf) 0). eexists.
      split; [|split; [reflexivity|]].
      * intros w. unfold on_serial_byte, lineBuf_store, String_lineBuf.
        rewrite Ecr, Elf. run_machine. change (0 <? S len)%nat with true.
        run_machine. case_decide; [|lia]. run_machine.
        apply lookup_lt_is_Some_2 in Hin as [old Hold].
        rewrite (insert_take_drop buf (S len) NUL) by (by eapply lookup_lt_Some).
        rewrite c_str_terminated. reflexivity.
      * split; [|by repeat split].
        split; cbn [lineBuf lineLen]; [by rewrite length_insert|lia].
  - destruct (Nat.ltb_spec (length (take len buf)) (LINE_BUF - 1)) as [Hroom|Hfull];
      rewrite Hacc in *; cbn [fst snd].
    + assert (len < length buf)%nat as Hin by (unfold LINE_BUF in *; lia).
      exists (mkGlobals tc tr tl (<[len := c]> buf) (S len)), [].
      split; [|split; [reflexivity|]].
      * intros w. unfold on_serial_byte, lineBuf_store.
        rewrite Ecr, Elf, add_calls_nil. run_machine.
        destruct (Nat.ltb_spec len (LINE_BUF - 1)) as [_|?]; [|lia].
        run_machine. case_decide; [|lia]. reflexivity.
      * split; [split; cbn [lineBuf lineLen]; [by rewrite length_insert|lia]|].
        split; [|by repeat split]. cbn [lineBuf lineLen].
        rewrite (take_S_r _ _ c) by (by apply list_lookup_insert_eq).
        by rewrite take_insert_ge.
    + exists (mkGlobals tc tr tl buf len), [].
      split; [|by repeat split].
      intros w. unfold on_serial_byte. rewrite Ecr, Elf, add_calls_nil.
      run_machine.
      destruct (Nat.ltb_spec len (LINE_BUF - 1)) as [?|_]; [lia|]. reflexivity.
Qed.

(** Draining a queue, for every world and every sufficient loop bound at
    once. *)
Lemma drain_serial_run (bs : list ascii) :
  forall g : Globals,
    buffer_ok g ->
    exists (g' : Globals) (out : list Call),
      (forall (fuel : nat) (e : Env) (t : Z) (q d c : nat) (u : bool)
              (ib : list (string * list ascii)) (cs : list Call),
         (length bs < fuel)%nat ->
         drain_serial fuel (mkMachine g (mkWorld e t q d c u bs ib cs))
         = Done tt (mkMachine g' (mkWorld e t q d c u [] ib (cs ++ out)))) /\
      out = map (fun l => mqtt_publish_call (tResp g) l false)
                (snd (feed_all (accumulated g) bs)) /\
      buffer_ok g' /\
      accumulated g' = fst (feed_all (accumulated g) bs) /\
      tCmd g' = tCmd g /\ tResp g' = tResp g /\ tLwt g' = tLwt g.
Proof.
  induction bs as [|b bs IH]; intros g Hok.
  - exists g, []. split; [|split; [reflexivity|split; [exact Hok|by repeat split]]].
    intros fuel e t q d c u ib cs Hfuel.
    destruct fuel as [|fuel]; [simpl in Hfuel; lia|].
    cbn [drain_serial]. run_machine. by rewrite app_nil_r.
  - destruct (on_serial_byte_step b g Hok)
      as (g1 & out1 & Hstep & Hout1 & Hok1 & Hacc1 & Hc1 & Hr1 & Hl1).
    destruct (IH g1 Hok1) as (g2 & out2 & Hrun & Hout2 & Hok2 & Hacc2 & Hc2 & Hr2 & Hl2).
    exists g2, (out1 ++ out2). split; [|split].
    + intros fuel e t q d c u ib cs Hfuel.
      destruct fuel as [|fuel]; [simpl in Hfuel; lia|].
      cbn [drain_serial]. run_machine. rewrite Hstep. run_machine.
      rewrite Hrun by (simpl in Hfuel; lia). by rewrite app_assoc.
    + rewrite feed_all_cons. cbv zeta. cbn [snd].
      rewrite Hout1, Hout2, Hacc1, Hr1.
      by destruct (snd (feed (accumulated g) b)).
    + rewrite feed_all_cons. cbv zeta. cbn [fst].
      split; [exact Hok2|]. split; [by rewrite Hacc2, Hacc1|].
      repeat split; congruence.
Qed.

(** Draining [a ++ b] is draining [a] and then [b]. *)
Lemma drain_serial_app (a : list ascii) :
  forall g : Globals,
    buffer_ok g ->
    exists (g1 : Globals) (out1 : list Call),
      buffer_ok g1 /\
      forall (b : list ascii) (fuel : nat) (e : Env) (t : Z) (q d c : nat)
             (u : bool) (ib : list (string * list ascii)) (cs : list Call),
        (length (a ++ b) < fuel)%nat ->
        drain_serial fuel (mkMachine g (mkWorld e t q d c u a ib cs))
        = Done tt (mkMachine g1 (mkWorld e t q d c u [] ib (cs ++ out1))) /\
        drain_serial fuel (mkMachine g (mkWorld e t q d c u (a ++ b) ib cs))
        = drain_serial fuel (mkMachine g1 (mkWorld e t q d c u b ib (cs ++ out1))).
Proof.
  induction a as [|x a IH]; intros g Hok.
  - exists g, []. split; [done|].
    intros b fuel e t q d c u ib cs Hfuel. rewrite app_nil_r. split; [|done].
    destruct fuel as [|fuel]; [simpl in Hfuel; lia|]. reflexivity.
  - destruct (on_serial_byte_step x g Hok) as (g1 & out1 & Hstep & _ & Hok1 & _).
    destruct (IH g1 Hok1) as (g2 & out2 & Hok2 & Hrun).
    exists g2, (out1 ++ out2). split; [done|].
    intros b fuel e t q d c u ib cs Hfuel.
    destruct fuel as [|fuel]; [simpl in Hfuel; lia|].
    destruct (Hrun b fuel e t q d c u ib (cs ++ out1)) as [Ha Hab].
    { simpl in Hfuel. lia. }
    destruct (drain_serial_run b g2 Hok2) as (g3 & out3 & Hb & _).
    split.
    + cbn [drain_serial]. run_machine. rewrite Hstep. run_machine.
      by rewrite Ha, app_assoc.
    + rewrite length_app in Hfuel. simpl in Hfuel.
      rewrite (Hb (S fuel)) by lia.
      cbn [app drain_serial]. run_machine. rewrite Hstep. run_machine.
      rewrite Hab, Hb by lia. by rewrite app_assoc.
Qed.

(** X1.  The line buffer carries a partial line from one drain to the next.
    Draining bytes [a] that hold no newline, from an empty buffer, publishes
    nothing and leaves what the framer keeps of [a] accumulated.  Draining
    [b] afterwards ends in the machine that draining [a ++ b] at once ends
    in, and the lines published are those of [a ++ b]: when [b] brings the
    newline, the line begun by [a] is published once, whole, before the lines
    of the rest of [b]. *)
Theorem framing_resumes_across_drains (fuel : nat) (a b : list ascii) (m : Machine) :
  buffer_ok (vars m) ->
  lineLen (vars m) = 0%nat ->
  LF ∉ a ->
  (length (a ++ b) < fuel)%nat ->
  let publish_line := fun l => mqtt_publish_call (tResp (vars m)) l false in
  exists m1 m2 : Machine,
    drain_serial fuel (with_world (set_serial_rx a (world m)) m) = Done tt m1 /\
    calls (world m1) = calls (world m) /\
    accumulated (vars m1) = kept a /\
    drain_serial fuel (with_world (set_serial_rx b (world m1)) m1) = Done tt m2 /\
    drain_serial fuel (with_world (set_serial_rx (a ++ b) (world m)) m) = Done tt m2 /\
    calls (world m2)
    = calls (world m)
      ++ map publish_line (c_string_lines (terminated_segments (a ++ b))) /\
    accumulated (vars m2) = kept (unterminated_tail (a ++ b)) /\
    (forall b1 b2 : list ascii,
       b = b1 ++ LF :: b2 ->
       LF ∉ b1 ->
       strip_cr (a ++ b1) <> [] ->
       calls (world m2)
       = calls (world m)
         ++ publish_line (string_of_list_ascii (before_nul (kept (a ++ b1))))
            :: map publish_line (c_string_lines (terminated_segments b2))).
Proof.
  destruct m as [g [e t q d c u rx ib cs]]. run_machine.
  intros Hok Hempty Ha Hfuel.
  assert (length a < fuel)%nat as Hfuel_a by (rewrite length_app in Hfuel; lia).
  assert (length b < fuel)%nat as Hfuel_b by (rewrite length_app in Hfuel; lia).
  assert (accumulated g = []) as Hnil by (unfold accumulated; by rewrite Hempty).
  destruct (drain_serial_app a g Hok) as (g1 & out1 & Hok1 & Hrun).
  destruct (Hrun b fuel e t q d c u ib cs Hfuel) as [Hdrain_a Hab].
  destruct (drain_serial_run a g Hok)
    as (g1' & out1' & Hrun_a & Hout1 & _ & Hacc1 & _).
  pose proof Hdrain_a as Heq. rewrite Hrun_a in Heq by done.
  injection Heq as Hg1 Hcs1. apply app_inv_head in Hcs1.
  rewrite Hg1 in Hacc1. rewrite Hcs1 in Hout1. clear Hrun_a Hg1 Hcs1 g1' out1'.
  rewrite Hnil in Hout1, Hacc1.
  change (@nil ascii) with (kept []) in Hout1, Hacc1.
  rewrite (feed_all_segments a [] (not_elem_of_nil _)), app_nil_l, split_on_end
    in Hout1, Hacc1 by done.
  cbn [fst snd removelast List.last map] in Hout1, Hacc1.
  change (c_string_lines []) with (@nil string) in Hout1. cbn [map] in Hout1.
  destruct (drain_serial_run b g1 Hok1) as (g2 & out2 & Hrun_b & _).
  destruct (drain_serial_feed_all (a ++ b) fuel g e t q d c u ib cs Hok Hfuel)
    as (g2' & Hrun_ab & _ & Hacc2 & _).
  rewrite Hab, Hrun_b in Hrun_ab by done.
  injection Hrun_ab as Hg2 Hcs2. rewrite <- Hg2 in Hacc2.
  rewrite Hout1, app_nil_r in Hcs2. apply app_inv_head in Hcs2.
  rewrite Hnil, feed_all_from_empty in Hcs2, Hacc2. cbn [fst snd] in Hcs2, Hacc2.
  exists (mkMachine g1 (mkWorld e t q d c u [] ib (cs ++ out1))).
  exists (mkMachine g2 (mkWorld e t q d c u [] ib ((cs ++ out1) ++ out2))).
  run_machine.
  split; [exact Hdrain_a|]. split; [by rewrite Hout1, app_nil_r|].
  split; [exact Hacc1|]. split; [by apply Hrun_b|].
  split; [rewrite Hab; by apply Hrun_b|].
  rewrite Hout1, app_nil_r, Hcs2.
  split; [reflexivity|]. split; [exact Hacc2|].
  intros b1 b2 -> Hb1 Hline. do 2 f_equal.
  unfold terminated_segments.
  rewrite app_assoc, split_on_delim, removelast_cons_split
    by (rewrite not_elem_of_app; by split).
  unfold c_string_lines. cbn [map]. by rewrite filter_cons_True by done.
Qed.

Lemma strip_cr_cons_cr (rx : list ascii) : strip_cr (CR :: rx) = strip_cr rx.
Proof. unfold strip_cr. by rewrite filter_cons_False by (intros H; by apply H). Qed.

Lemma strip_cr_cons (x : ascii) (rx : list ascii) :
  x <> CR -> strip_cr (x :: rx) = x :: strip_cr rx.
Proof. intros Hx. unfold strip_cr. by rewrite filter_cons_True. Qed.

Lemma strip_cr_length (rx : list ascii) : (length (strip_cr rx) <= length rx)%nat.
Proof. apply length_filter. Qed.

(** X2.  Carriage returns are invisible to the framer: draining an input and
    draining the same input with every carriage return removed leave the
    machine in the same state, with the same lines published. *)
Theorem framing_ignores_carriage_returns (fuel : nat) (m : Machine) :
  buffer_ok (vars m) ->
  (length (serial_rx (world m)) < fuel)%nat ->
  exists m' : Machine,
    drain_serial fuel m = Done tt m' /\
    drain_serial fuel
      (with_world (set_serial_rx (strip_cr (serial_rx (world m))) (world m)) m)
    = Done tt m'.
Proof.
  destruct m as [g [e t q d c u rx ib cs]]. run_machine.
  intros Hok Hfuel. revert fuel g cs Hok Hfuel.
  induction rx as [|x rx IH]; intros fuel g cs Hok Hfuel.
  - destruct fuel as [|fuel]; [simpl in Hfuel; lia|]. eexists. split; reflexivity.
  - destruct fuel as [|fuel]; [simpl in Hfuel; lia|].
    assert (length rx < fuel)%nat as Hfuel' by (simpl in Hfuel; lia).
    destruct (decide (x = CR)) as [->|Hx].
    + destruct (IH fuel g cs Hok Hfuel') as (m' & Hrun & Hstrip).
      exists m'. split.
      * cbn [drain_serial]. run_machine. exact Hrun.
      * rewrite strip_cr_cons_cr.
        destruct (drain_serial_run (strip_cr rx) g Hok) as (g' & out & Hb & _).
        pose proof (strip_cr_length rx) as Hle.
        rewrite Hb by lia. rewrite Hb in Hstrip by lia. exact Hstrip.
    + destruct (on_serial_byte_step x g Hok) as (g1 & out1 & Hstep & _ & Hok1 & _).
      destruct (IH fuel g1 (cs ++ out1) Hok1 Hfuel') as (m' & Hrun & Hstrip).
      exists m'. split.
      * cbn [drain_serial]. run_machine. rewrite Hstep. run_machine. exact Hrun.
      * rewrite strip_cr_cons by done.
        cbn [drain_serial]. run_machine. rewrite Hstep. run_machine. exact Hstrip.
Qed.

(** ** What a published line can hold *)

Lemma split_on_free (d : ascii) (bs : list ascii) :
  Forall (Forall (fun c => c <> d)) (split_on d bs).
Proof.
  induction bs as [|c bs IH]; simpl; [by repeat constructor|].
  destruct (Ascii.eqb_spec c d) as [->|Hc]; [by constructor|].
  destruct (split_on d bs) as [|seg segs]; [by repeat constructor|].
  inversion IH; subst. by repeat constructor.
Qed.

Lemma split_on_length (d : ascii) (bs : list ascii) :
  length (split_on d bs) = S (length (filter (fun c => c = d) bs)).
Proof.
  induction bs as [|c bs IH]; [done|]. simpl.
  rewrite filter_cons. destruct (Ascii.eqb_spec c d) as [->|Hc].
  - rewrite decide_True by done. simpl. by rewrite IH.
  - rewrite decide_False by done.
    destruct (split_on d bs) as [|seg segs]; simpl in *; lia.
Qed.

Lemma before_nul_clean (l : list ascii) :
  (length (before_nul l) <= length l)%nat /\
  Forall (fun c => c <> NUL /\ c ∈ l) (before_nul l).
Proof.
  induction l as [|c l [IHlen IHall]]; simpl; [by split|].
  destruct (Ascii.eqb_spec c NUL) as [->|Hc]; simpl; [split; [lia|done]|].
  split; [lia|]. constructor.
  - split; [done|]. by left.
  - apply (Forall_impl _ _ _ IHall). intros x [Hx Hin]. split; [done|]. by right.
Qed.

Lemma c_string_line_clean (seg : list ascii) :
  Forall (fun c => c <> LF) seg ->
  clean_line (string_of_list_ascii (before_nul (take (LINE_BUF - 1) (strip_cr seg)))).
Proof.
  intros Hseg. unfold clean_line. rewrite list_ascii_of_string_of_list_ascii.
  destruct (before_nul_clean (take (LINE_BUF - 1) (strip_cr seg))) as [Hlen Hall].
  split.
  - rewrite length_take in Hlen. lia.
  - apply (Forall_impl _ _ _ Hall). intros c [Hnul Hin].
    apply subseteq_take, list_elem_of_filter in Hin as [Hcr Hin].
    rewrite Forall_forall in Hseg. by repeat split; [|apply Hseg|].
Qed.

Lemma c_string_lines_clean (segs : list (list ascii)) :
  Forall (Forall (fun c => c <> LF)) segs ->
  Forall clean_line (c_string_lines segs) /\
  (length (c_string_lines segs) <= length segs)%nat.
Proof.
  unfold c_string_lines.
  induction 1 as [|seg segs Hseg Hsegs [IHall IHlen]]; [by split|].
  cbn [map]. rewrite filter_cons. case_decide; cbn [map length].
  - split; [|lia]. constructor; [|done].
    assert (Forall (fun c => c <> LF) (strip_cr seg)) as Hstrip.
    { apply Forall_forall. intros c Hin.
      apply list_elem_of_filter in Hin as [_ Hin].
      rewrite Forall_forall in Hseg. by apply Hseg. }
    pose proof (c_string_line_clean seg Hseg) as Hclean. exact Hclean.
  - split; [done|lia].
Qed.

Lemma terminated_segments_count (bs : list ascii) :
  length (terminated_segments bs) = length (filter (fun c => c = LF) bs).
Proof.
  unfold terminated_segments.
  pose proof (split_on_length LF bs) as Hlen.
  destruct (split_on_cons LF bs) as (seg & segs & Hsplit).
  rewrite Hsplit in *. clear Hsplit.
  assert (forall (l : list (list ascii)) x, length (removelast (x :: l)) = length l) as Hrm.
  { induction l as [|y l IH]; intros x; [done|].
    change (removelast (x :: y :: l)) with (x :: removelast (y :: l)).
    cbn [length]. by rewrite IH. }
  rewrite Hrm. simpl in Hlen. lia.
Qed.

(** X3.  Every line the framer publishes from an empty buffer is clean
    text: at most [LINE_BUF - 1 = 255] characters, none of them a carriage
    return, a newline or a NUL; and there is at most one published line per
    newline byte of the input. *)
Theorem published_lines_are_clean (fuel : nat) (m : Machine) :
  buffer_ok (vars m) ->
  lineLen (vars m) = 0%nat ->
  (length (serial_rx (world m)) < fuel)%nat ->
  exists (m' : Machine) (lines : list string),
    drain_serial fuel m = Done tt m' /\
    calls (world m')
    = calls (world m)
      ++ map (fun l => mqtt_publish_call (tResp (vars m)) l false) lines /\
    Forall clean_line lines /\
    (length lines <= length (filter (fun c => c = LF) (serial_rx (world m))))%nat.
Proof.
  destruct m as [g [e t q d c u rx ib cs]].
  cbn [vars world serial_rx calls]. intros Hok Hempty Hfuel.
  destruct (drain_serial_feed_all rx fuel g e t q d c u ib cs Hok Hfuel)
    as (g' & Hrun & _).
  assert (accumulated g = []) as Hnil by (unfold accumulated; by rewrite Hempty).
  rewrite Hnil, feed_all_from_empty in Hrun. cbn [snd] in Hrun.
  destruct (c_string_lines_clean (terminated_segments rx)) as [Hclean Hlen].
  { apply Forall_removelast, split_on_free. }
  do 2 eexists. split; [exact Hrun|]. cbn [vars world calls].
  split; [done|]. split; [done|].
  by rewrite <- terminated_segments_count.
Qed.

(** ** The command path over several messages *)

Lemma newline_terminated_last (P : list ascii) :
  last (newline_terminated P) = Some LF.
Proof.
  unfold newline_terminated, ends_with_newline.
  destruct (last P) as [c|] eqn:Hlast.
  - destruct (Ascii.eqb_spec c LF) as [->|Hc]; [done|]. apply last_snoc.
  - apply last_snoc.
Qed.

Lemma newline_terminated_idem (P : list ascii) :
  newline_terminated (newline_terminated P) = newline_terminated P.
Proof.
  unfold newline_terminated at 1. unfold ends_with_newline.
  by rewrite newline_terminated_last, Ascii.eqb_refl.
Qed.

Lemma deliver_forwarded (msgs : list (string * list ascii)) :
  forall m : Machine,
    deliver msgs m
    = Done tt (emit (map Serial_write_call (forwarded (tCmd (vars m)) msgs)) m).
Proof.
  induction msgs as [|[topic P] msgs IH]; intros m.
  - cbn [deliver forwarded map]. by rewrite emit_nil.
  - cbn [deliver forwarded]. unfold bind.
    destruct (String.eqb_spec topic (tCmd (vars m))) as [->|Hne].
    + rewrite onMqtt_command, IH, emit_emit, map_app. reflexivity.
    + rewrite onMqtt_other, IH by done. reflexivity.
Qed.

(** X4.  Whatever the payload, what [onMqtt] writes for a command ends
    with a newline and is the payload with at most one byte appended; a
    payload that already ends with a newline is written as it is, so
    forwarding what was forwarded adds nothing.  The callback issues no
    other call and leaves the global variables, the line buffer among
    them, untouched. *)
Theorem forwarded_command_is_terminated (topic : string) (P : list ascii)
    (m : Machine) :
  topic = tCmd (vars m) ->
  exists (m' : Machine) (out : list ascii),
    onMqtt topic P m = Done tt m' /\
    calls (world m') = calls (world m) ++ map Serial_write_call out /\
    vars m' = vars m /\
    last out = Some LF /\
    (out = P \/ out = P ++ [LF]) /\
    (last P = Some LF -> out = P) /\
    newline_terminated out = out.
Proof.
  intros ->. exists (emit (map Serial_write_call (newline_terminated P)) m).
  exists (newline_terminated P).
  split; [apply onMqtt_command|]. split; [reflexivity|]. split; [reflexivity|].
  split; [apply newline_terminated_last|].
  split; [|split; [|apply newline_terminated_idem]].
  - unfold newline_terminated. destruct (ends_with_newline P); auto.
  - intros Hlast. unfold newline_terminated, ends_with_newline.
    by rewrite Hlast, Ascii.eqb_refl.
Qed.

(** X5.  Successive invocations of the callback, as the messaging pump
    makes them, forward the commands in the order of delivery: the bytes
    written are the newline-terminated payloads of the messages on the
    command channel, one after the other, and the messages on other channels
    contribute nothing. *)
Theorem commands_forwarded_in_order (msgs : list (string * list ascii))
    (m : Machine) :
  exists m' : Machine,
    deliver msgs m = Done tt m' /\
    vars m' = vars m /\
    calls (world m')
    = calls (world m) ++ map Serial_write_call (forwarded (tCmd (vars m)) msgs) /\
    serial_written (calls (world m'))
    = serial_written (calls (world m)) ++ forwarded (tCmd (vars m)) msgs.
Proof.
  eexists. split; [apply deliver_forwarded|].
  split; [reflexivity|]. split; [reflexivity|].
  by rewrite calls_emit, serial_written_app, serial_written_writes.
Qed.

(** ** The messaging link, attempt after attempt *)

(** X6.  A connect attempt that the broker accepts is not repeated: the
    next [ensureMqtt] does nothing, so the online record is published and
    the command channel subscribed once per session.  An attempt that the
    broker refuses is followed by a fresh one on the next call, with the same
    last will.  Neither touches the global variables. *)
Theorem ensureMqtt_repeated (ID : string) (m : Machine) :
  mqtt_up (world m) = false ->
  let w := world m in
  let accepted := broker_accepts_at (env w) (connects w) in
  let accepted_next := broker_accepts_at (env w) (S (connects w)) in
  exists m1 : Machine,
    ensureMqtt ID m = Done tt m1 /\
    vars m1 = vars m /\
    calls (world m1)
    = calls w ++ connect_request ID (vars m) (env w)
              ++ (if accepted then connect_announce ID (vars m) else []) /\
    (accepted = true -> ensureMqtt ID m1 = Done tt m1) /\
    (accepted = false ->
     exists m2 : Machine,
       ensureMqtt ID m1 = Done tt m2 /\
       calls (world m2)
       = calls (world m1) ++ connect_request ID (vars m) (env w)
         ++ (if accepted_next then connect_announce ID (vars m) else [])).
Proof.
  intros Hdown. cbv zeta.
  eexists. split; [by apply ensureMqtt_attempt|].
  split; [reflexivity|]. split; [reflexivity|]. split.
  - intros Hacc. apply ensureMqtt_connected. exact Hacc.
  - intros Hacc. eexists. split; [by apply ensureMqtt_attempt|]. reflexivity.
Qed.

(** ** The network link with exact delays *)

Lemma waited_exact (e : Env) (d n : nat) :
  (forall k, delay_lag_at e k = 0) -> waited e d n = 300 * Z.of_nat n.
Proof.
  intros Hlag. revert d. induction n as [|n IH]; intros d; [done|].
  change (waited e d (S n)) with (300 + delay_lag_at e d + waited e (S d) n).
  rewrite Hlag, IH. lia.
Qed.

(** X7.  When every [delay(300)] lasts exactly 300 ms, the wait of
    [ensureWifi] is determined by the polls alone, from any clock value,
    the ones near the wrap of the 32-bit millisecond counter included: it
    makes [n] delays, where [n] is the index of the first poll that reports
    connected if that index is at most 66, and 67 otherwise, so that a wait
    that times out lasts 20100 ms. *)
Theorem ensureWifi_exact_delays (fuel : nat) (m : Machine) :
  0 <= clock (world m) < 2 ^ 32 ->
  (forall k, delay_lag_at (env (world m)) k = 0) ->
  (67 <= fuel)%nat ->
  wifi_connected_at (env (world m)) (wifi_queries (world m)) = false ->
  exists (n : nat) (m' : Machine),
    ensureWifi fuel m = Done tt m' /\
    calls (world m') = calls (world m) ++ association_calls n /\
    clock (world m') = uint32 (clock (world m) + 300 * Z.of_nat n) /\
    (forall k, (k < n)%nat ->
       wifi_connected_at (env (world m)) (S (wifi_queries (world m)) + k) = false) /\
    (((n <= 66)%nat /\
      wifi_connected_at (env (world m)) (S (wifi_queries (world m)) + n) = true /\
      wifi_queries (world m') = (wifi_queries (world m) + n + 2)%nat)
     \/ (n = 67%nat /\
         wifi_queries (world m') = (wifi_queries (world m) + 68)%nat)).
Proof.
  destruct m as [g [e t q d c u rx ib cs]].
  cbn [world vars env clock wifi_queries delays calls].
  intros Ht Hlag Hfuel Hq.
  destruct (ensureWifi_wait_spec 0 fuel g e t (S q) d c u rx ib
              (cs ++ [WiFi_mode_STA_call] ++ [WiFi_begin_call WIFI_SSID WIFI_PASS])
              t 0)
    as (n & q' & Hn & Hrun & Hfalse & Hend).
  { intros k. rewrite Hlag. lia. }
  { lia. }
  { rewrite Z.add_0_r. symmetry. by apply uint32_small. }
  { lia. }
  { lia. }
  rewrite (waited_exact e d n Hlag) in *.
  exists n. eexists. split.
  { unfold ensureWifi. run_machine. rewrite Hq. run_machine.
    rewrite <- app_assoc. exact Hrun. }
  cbn [world vars env clock wifi_queries delays calls].
  split; [unfold association_calls; by rewrite <- !app_assoc|].
  split; [by rewrite Z.add_0_r|]. split; [exact Hfalse|].
  destruct Hend as [(H1 & H2 & ->)|(H1 & H2 & ->)]; [left|right].
  - split; [lia|]. split; [done|lia].
  - assert (n = 67%nat) as -> by lia. split; [done|lia].
Qed.

(** ** The two ensure operations, in every case *)

(** [ensureWifi] on an explicit machine: it returns, having touched nothing
    but the clock, the counters of the environment and the log. *)
Lemma ensureWifi_run (L : Z) (fuel : nat) (g : Globals) (e : Env) (t : Z)
    (q d c : nat) (u : bool) (rx : list ascii)
    (ib : list (string * list ascii)) (cs : list Call) :
  0 <= t < 2 ^ 32 ->
  (forall k, 0 <= delay_lag_at e k <= L) ->
  20300 + L < 2 ^ 32 ->
  (67 <= fuel)%nat ->
  exists (t' : Z) (q' n : nat) (out : list Call),
    ensureWifi fuel (mkMachine g (mkWorld e t q d c u rx ib cs))
    = Done tt (mkMachine g (mkWorld e t' q' (d + n) c u rx ib (cs ++ out))) /\
    0 <= t' < 2 ^ 32 /\
    ((wifi_connected_at e q = true /\ out = [] /\ n = 0%nat) \/
     (wifi_connected_at e q = false /\ out = association_calls n /\ (n <= 67)%nat)).
Proof.
  intros Ht Hlag HL Hfuel.
  destruct (wifi_connected_at e q) eqn:Hq.
  - exists t, (S q), 0%nat, []. split; [|split; [done|by left]].
    unfold ensureWifi. run_machine. rewrite Hq. run_machine.
    by rewrite Nat.add_0_r, app_nil_r.
  - destruct (ensureWifi_wait_spec L fuel g e t (S q) d c u rx ib
                (cs ++ [WiFi_mode_STA_call] ++ [WiFi_begin_call WIFI_SSID WIFI_PASS])
                t 0 Hlag HL)
      as (n & q' & Hn & Hrun & _).
    { rewrite Z.add_0_r. symmetry. by apply uint32_small. }
    { lia. }
    { lia. }
    exists (uint32 (t + 0 + waited e d n)), q', n, (association_calls n).
    split; [|split].
    + unfold ensureWifi. run_machine. rewrite Hq. run_machine.
      rewrite <- app_assoc, Hrun. unfold association_calls.
      by rewrite <- !app_assoc.
    + unfold uint32. apply Z.mod_pos_bound. lia.
    + right. split; [done|]. split; [done|lia].
Qed.



(** ** Start-up and the scheduling cycle *)

(** X8.  [setup] always returns, whether the network link comes up or not:
    it opens the serial port, waits 100 ms, derives the channel names, runs
    the bounded wait for the link and then, in either case, makes one connect
    attempt.  The names are derived before the attempt, so the last will is
    registered on [crane/ID/lwt] and never on the empty name the variable
    holds at power-on.  The line buffer is not touched. *)
Theorem setup_sequence (ID : string) (L : Z) (fuel : nat) (m : Machine) :
  mqtt_up (world m) = false ->
  (forall k, 0 <= delay_lag_at (env (world m)) k <= L) ->
  20300 + L < 2 ^ 32 ->
  (67 <= fuel)%nat ->
  let e := env (world m) in
  let accepted := broker_accepts_at e (connects (world m)) in
  exists (m' : Machine) (link : list Call),
    setup ID fuel m = Done tt m' /\
    derived_channels ID (vars m') /\
    lineBuf (vars m') = lineBuf (vars m) /\
    lineLen (vars m') = lineLen (vars m) /\
    mqtt_up (world m') = accepted /\
    (link = [] \/ exists n : nat, (n <= 67)%nat /\ link = association_calls n) /\
    calls (world m')
    = calls (world m)
      ++ [Serial_begin_call BAUD; delay_call 100]
      ++ link
      ++ [mqtt_setServer_call MQTT_HOST MQTT_PORT; mqtt_setCallback_call;
          mqtt_connect_call (ID +:+ "-" +:+ String_HEX (chip_id e))
                            ("crane/" +:+ ID +:+ "/lwt") 1 true
                            (presence_text false ID)]
      ++ (if accepted
          then [mqtt_publish_call ("crane/" +:+ ID +:+ "/lwt")
                                  (presence_text true ID) true;
                mqtt_subscribe_call ("crane/" +:+ ID +:+ "/cmd") 1]
          else []).
Proof.
  destruct m as [g [e t q d c u rx ib cs]].
  cbn [world vars env clock wifi_queries delays connects mqtt_up calls].
  intros -> Hlag HL Hfuel. cbv zeta.
  destruct (ensureWifi_run L fuel
              (mkGlobals ("crane/" +:+ ID +:+ "/cmd") ("crane/" +:+ ID +:+ "/resp")
                         ("crane/" +:+ ID +:+ "/lwt") (lineBuf g) (lineLen g))
              e (uint32 (t + 100 + delay_lag_at e d)) q (S d)
              c false rx ib ((cs ++ [Serial_begin_call BAUD]) ++ [delay_call 100]))
    as (t' & q' & n & link & Hwifi & Ht' & Hlink); try done.
  { unfold uint32. apply Z.mod_pos_bound. lia. }
  eexists. exists link. split.
  { unfold setup, setupTopics. run_machine. rewrite !string_app_assoc.
    rewrite Hwifi. run_machine.
    rewrite ensureMqtt_attempt by reflexivity. reflexivity. }
  cbn [world vars env clock wifi_queries delays connects mqtt_up calls].
  split; [by repeat split|]. split; [done|]. split; [done|]. split; [done|].
  split.
  - destruct Hlink as [(_ & -> & _)|(_ & -> & Hn)]; [by left|right; eauto].
  - rewrite <- !app_assoc. reflexivity.
Qed.




(** ** The further properties at concrete inputs *)

Lemma framing_resumes_across_drains_witness :
  exists m1 m2 : Machine,
    drain_serial 6
      (with_world (set_serial_rx ["G"; "1"]%char (world (bench link_up [])))
                  (bench link_up []))
    = Done tt m1 /\
    calls (world m1) = [] /\
    drain_serial 6 (with_world (set_serial_rx [" "; "X"; LF]%char (world m1)) m1)
    = Done tt m2 /\
    calls (world m2) = [mqtt_publish_call "crane/crane-1/resp" "G1 X" false].
Proof.
  destruct (framing_resumes_across_drains 6 ["G"; "1"]%char [" "; "X"; LF]%char
              (bench link_up []))
    as (m1 & m2 & Hrun1 & Hcalls1 & _ & Hrun2 & _ & _ & _ & Hline).
  - split; [reflexivity|]. vm_compute. lia.
  - reflexivity.
  - absent_byte.
  - vm_compute. lia.
  - exists m1, m2. split; [exact Hrun1|]. split; [exact Hcalls1|].
    split; [exact Hrun2|].
    apply (Hline [" "; "X"]%char []); [reflexivity|absent_byte|discriminate].
Defined.

Lemma framing_ignores_carriage_returns_witness :
  exists m' : Machine,
    drain_serial 5 (bench link_up ["o"; CR; "k"; LF]%char) = Done tt m' /\
    drain_serial 5
      (with_world
         (set_serial_rx
            (strip_cr (serial_rx (world (bench link_up ["o"; CR; "k"; LF]%char))))
            (world (bench link_up ["o"; CR; "k"; LF]%char)))
         (bench link_up ["o"; CR; "k"; LF]%char))
    = Done tt m'.
Proof.
  apply (framing_ignores_carriage_returns 5 (bench link_up ["o"; CR; "k"; LF]%char)).
  - split; [reflexivity|]. vm_compute. lia.
  - vm_compute. lia.
Defined.

Lemma published_lines_are_clean_witness :
  exists (m' : Machine) (lines : list string),
    drain_serial 5 (bench link_up ["o"; CR; "k"; LF]%char) = Done tt m' /\
    calls (world m')
    = map (fun l => mqtt_publish_call "crane/crane-1/resp" l false) lines /\
    Forall clean_line lines.
Proof.
  destruct (published_lines_are_clean 5 (bench link_up ["o"; CR; "k"; LF]%char))
    as (m' & lines & Hrun & Hcalls & Hclean & _).
  - split; [reflexivity|]. vm_compute. lia.
  - reflexivity.
  - vm_compute. lia.
  - exists m', lines. split; [exact Hrun|]. split; [exact Hcalls|exact Hclean].
Defined.

Lemma forwarded_command_is_terminated_witness :
  exists (m' : Machine) (out : list ascii),
    onMqtt "crane/crane-1/cmd" ["M"; "1"; "1"; "4"; LF]%char (bench link_up [])
    = Done tt m' /\
    calls (world m') = map Serial_write_call out /\
    last out = Some LF.
Proof.
  destruct (forwarded_command_is_terminated "crane/crane-1/cmd"
              ["M"; "1"; "1"; "4"; LF]%char (bench link_up []))
    as (m' & out & Hrun & Hcalls & _ & Hlast & _).
  - reflexivity.
  - exists m', out. split; [exact Hrun|]. split; [exact Hcalls|exact Hlast].
Defined.

Lemma ensureMqtt_repeated_witness :
  exists m1 : Machine,
    ensureMqtt crane_1 (bench link_up []) = Done tt m1 /\
    ensureMqtt crane_1 m1 = Done tt m1.
Proof.
  destruct (ensureMqtt_repeated crane_1 (bench link_up []))
    as (m1 & Hrun & _ & _ & Hagain & _).
  - reflexivity.
  - exists m1. split; [exact Hrun|]. apply Hagain. reflexivity.
Defined.

Lemma ensureWifi_exact_delays_witness :
  exists (n : nat) (m' : Machine),
    ensureWifi 67 (bench link_down []) = Done tt m' /\
    calls (world m') = association_calls n /\
    clock (world m') = uint32 (300 * Z.of_nat n).
Proof.
  destruct (ensureWifi_exact_delays 67 (bench link_down []))
    as (n & m' & Hrun & Hcalls & Hclock & _).
  - vm_compute. split; [discriminate|reflexivity].
  - reflexivity.
  - lia.
  - reflexivity.
  - exists n, m'. split; [exact Hrun|]. split; [exact Hcalls|exact Hclock].
Defined.

Lemma setup_sequence_witness :
  exists m' : Machine,
    setup crane_1 67 (power_on link_down []) = Done tt m' /\
    derived_channels crane_1 (vars m') /\
    mqtt_up (world m') = true.
Proof.
  destruct (setup_sequence crane_1 0 67 (power_on link_down []))
    as (m' & link & Hrun & Hnames & _ & _ & Hup & _).
  - reflexivity.
  - intros k. vm_compute. split; discriminate.
  - reflexivity.
  - lia.
  - exists m'. split; [exact Hrun|]. split; [exact Hnames|exact Hup].
Defined.



(** The steady cycle of the specification's two scenarios together: the
    command is written before the line is published. *)
Example loop_steady_cycle_run :
  exists m' : Machine,
    loop crane_1 4
      (bench_online [("crane/crane-1/cmd", ["G"; "2"; "8"]%char)] ["o"; "k"; LF]%char)
    = Done tt m' /\
    calls (world m')
    = [Serial_write_call "G"; Serial_write_call "2"; Serial_write_call "8";
       Serial_write_call LF;
       mqtt_publish_call "crane/crane-1/resp" "ok" false].
Proof. eexists. split; vm_compute; reflexivity. Qed.
